(** * Retro Snake: a shallow embedding of [snake_game.py]

    The game core of the program (the classes [Direction], [Snake], [Food]
    and the state-changing methods of [Game]) is embedded as Rocq functions.
    Python integers are [Z]; the [deque] holding the snake's body is a list
    read tail-first (index 0 is the tail, the last index is the head);
    exceptions and the unbounded [while True] loop of [Food.spawn] are made
    explicit by the [outcome] type; the module-level random generator is an
    explicit stream of raw draws threaded through the calls that use it. *)

From Stdlib Require Import ZArith List Bool Lia.
Import ListNotations.
Open Scope Z_scope.

(** ** Outcomes of a call *)

(** The only exception the modelled code can raise. *)
Inductive exn : Type := IndexError.

(** A call returns a value, raises, or is still looping when the fuel given
    to the model is spent. *)
Inductive outcome (A : Type) : Type :=
| Returns (a : A)
| Raises (e : exn)
| OutOfFuel.

Arguments Returns {A} a.
Arguments Raises {A} e.
Arguments OutOfFuel {A}.

Definition bind {A B : Type} (m : outcome A) (k : A -> outcome B) : outcome B :=
  match m with
  | Returns a => k a
  | Raises e => Raises e
  | OutOfFuel => OutOfFuel
  end.

Notation "x <- m ;; k" := (bind m (fun x => k))
  (at level 61, m at next level, right associativity).
Notation "' p <- m ;; k" := (bind m (fun x => let p := x in k))
  (at level 61, p pattern, m at next level, right associativity).

(** ** Constants *)

Definition WINDOW_WIDTH : Z := 800.
Definition WINDOW_HEIGHT : Z := 600.
Definition GRID_SIZE : Z := 20.
(** Python's [//] is floor division, as [Z.div] is. *)
Definition GRID_WIDTH : Z := WINDOW_WIDTH / GRID_SIZE.
Definition GRID_HEIGHT : Z := WINDOW_HEIGHT / GRID_SIZE.
Definition INITIAL_SNAKE_LENGTH : Z := 3.

(** ** Cells and the deque *)

Definition cell : Type := (Z * Z)%type.

(** [==] on tuples of two integers. *)
Definition cell_eqb (c1 c2 : cell) : bool :=
  (fst c1 =? fst c2) && (snd c1 =? snd c2).

(** [c in l] on a sequence of cells. *)
Definition py_in (c : cell) (l : list cell) : bool := existsb (cell_eqb c) l.

Definition deque_append {A : Type} (d : list A) (x : A) : list A := d ++ [x].

Definition deque_popleft {A : Type} (d : list A) : outcome (A * list A) :=
  match d with
  | [] => Raises IndexError
  | x :: d' => Returns (x, d')
  end.

(** [d[-1]]: the last element, [IndexError] on an empty deque. *)
Fixpoint deque_last {A : Type} (d : list A) : outcome A :=
  match d with
  | [] => Raises IndexError
  | x :: d' => match d' with [] => Returns x | _ :: _ => deque_last d' end
  end.

(** [range(start, stop, step)] for a non-zero step. *)
Definition range_len (start stop step : Z) : Z :=
  if 0 <? step then
    (if start <? stop then (stop - start - 1) / step + 1 else 0)
  else if step <? 0 then
    (if stop <? start then (start - stop - 1) / (- step) + 1 else 0)
  else 0.

Definition py_range (start stop step : Z) : list Z :=
  map (fun k => start + Z.of_nat k * step)
      (seq 0 (Z.to_nat (range_len start stop step))).

(** ** Direction *)

Inductive Direction : Type := UP | DOWN | LEFT | RIGHT.

Definition value (d : Direction) : Z * Z :=
  match d with
  | UP => (0, -1)
  | DOWN => (0, 1)
  | LEFT => (-1, 0)
  | RIGHT => (1, 0)
  end.

Definition Direction_eqb (a b : Direction) : bool :=
  match a, b with
  | UP, UP | DOWN, DOWN | LEFT, LEFT | RIGHT, RIGHT => true
  | _, _ => false
  end.

(** The dictionary built in [change_direction], in insertion order, and
    [dict.get], which answers [None] for a missing key. *)
Definition opposite_directions : list (Direction * Direction) :=
  [(UP, DOWN); (DOWN, UP); (LEFT, RIGHT); (RIGHT, LEFT)].

Fixpoint dict_get (d : list (Direction * Direction)) (k : Direction)
  : option Direction :=
  match d with
  | [] => None
  | (k', v) :: d' => if Direction_eqb k k' then Some v else dict_get d' k
  end.

(** [a != b] where [b] is the result of [dict.get]: a member of the
    enumeration differs from [None]. *)
Definition ne_get (a : Direction) (b : option Direction) : bool :=
  match b with
  | Some b' => negb (Direction_eqb a b')
  | None => true
  end.

(** The direction the table gives for [h]. *)
Definition opposite (h : Direction) : Direction :=
  match dict_get opposite_directions h with
  | Some o => o
  | None => h
  end.

(** ** Snake *)

Record Snake : Type := mkSnake {
  body : list cell;
  direction : Direction;
  grow_pending : bool
}.

Definition set_body (s : Snake) (b : list cell) : Snake :=
  mkSnake b (direction s) (grow_pending s).
Definition set_direction (s : Snake) (d : Direction) : Snake :=
  mkSnake (body s) d (grow_pending s).
Definition set_grow_pending (s : Snake) (g : bool) : Snake :=
  mkSnake (body s) (direction s) g.

(** [Snake.reset]: the body is cleared and refilled, one [append] for each
    [i] of [range(INITIAL_SNAKE_LENGTH - 1, -1, -1)]. *)
Definition reset (s : Snake) : Snake :=
  let cleared := set_body s [] in
  let start_x := GRID_WIDTH / 2 in
  let start_y := GRID_HEIGHT / 2 in
  let filled :=
    fold_left (fun sn i => set_body sn (deque_append (body sn) (start_x - i, start_y)))
              (py_range (INITIAL_SNAKE_LENGTH - 1) (-1) (-1)) cleared in
  set_grow_pending (set_direction filled RIGHT) false.

(** [Snake()]: the constructor sets the fields and calls [reset]. *)
Definition Snake_init : Snake := reset (mkSnake [] RIGHT false).

(** [Snake.get_head]: [self.body[-1]]. *)
Definition get_head (s : Snake) : outcome cell := deque_last (body s).

(** [Snake.move]: [append] the new head, then [popleft] unless growth is
    pending, in which case the flag is cleared. *)
Definition move (s : Snake) : outcome Snake :=
  '(head_x, head_y) <- get_head s ;;
  let '(dx, dy) := value (direction s) in
  let new_head := (head_x + dx, head_y + dy) in
  let s1 := set_body s (deque_append (body s) new_head) in
  if negb (grow_pending s1) then
    '(_, rest) <- deque_popleft (body s1) ;;
    Returns (set_body s1 rest)
  else
    Returns (set_grow_pending s1 false).

(** [Snake.grow]: only the flag is set; the body grows at the next [move]. *)
Definition grow (s : Snake) : Snake := set_grow_pending s true.

(** [Snake.change_direction]. *)
Definition change_direction (s : Snake) (new_direction : Direction) : Snake :=
  if ne_get new_direction (dict_get opposite_directions (direction s))
  then set_direction s new_direction
  else s.

(** [Snake.check_collision]: the wall test, then the test of the head
    against [list(self.body)[:-1]]. *)
Definition check_collision (s : Snake) : outcome bool :=
  '(head_x, head_y) <- get_head s ;;
  if (head_x <? 0) || (head_x >=? GRID_WIDTH) ||
     (head_y <? 0) || (head_y >=? GRID_HEIGHT)
  then Returns true
  else
    let body_without_head := removelast (body s) in
    h <- get_head s ;;
    if py_in h body_without_head then Returns true else Returns false.

(** ** The random source *)

(** The state of the [random] module: the stream of raw integers it will
    hand out. [randint a b] consumes one of them and reduces it into
    [a..b], so that every value of the range, and no other, can come out. *)
Definition Rng : Type := nat -> Z.

Definition randint (a b : Z) (g : Rng) : Z * Rng :=
  (a + g 0%nat mod (b - a + 1), fun n => g (S n)).

(** ** Food *)

Record Food : Type := mkFood { position : cell }.

(** The exit test of the loop: [snake_body is None or (x, y) not in snake_body]. *)
Definition accepts (snake_body : option (list cell)) (c : cell) : bool :=
  match snake_body with
  | None => true
  | Some b => negb (py_in c b)
  end.

(** [Food.spawn]. The loop is [while True]: one unit of fuel per iteration. *)
Fixpoint spawn (fuel : nat) (g : Rng) (f : Food) (snake_body : option (list cell))
  : outcome (Food * Rng) :=
  match fuel with
  | O => OutOfFuel
  | S fuel' =>
      let '(x, g1) := randint 0 (GRID_WIDTH - 1) g in
      let '(y, g2) := randint 0 (GRID_HEIGHT - 1) g1 in
      if accepts snake_body (x, y)
      then Returns (mkFood (x, y), g2)
      else spawn fuel' g2 f snake_body
  end.

(** [Food()]: position [(0, 0)], then [spawn()] with no body given. *)
Definition Food_init (fuel : nat) (g : Rng) : outcome (Food * Rng) :=
  spawn fuel g (mkFood (0, 0)) None.

(** ** Game *)

(** The fields of [Game] that the game logic reads or writes; the screen,
    the clock and the fonts are left out. *)
Record Game : Type := mkGame {
  snake : Snake;
  food : Food;
  score : Z;
  high_score : Z;
  running : bool;
  game_over : bool
}.

Definition set_snake (g : Game) (s : Snake) : Game :=
  mkGame s (food g) (score g) (high_score g) (running g) (game_over g).
Definition set_food (g : Game) (f : Food) : Game :=
  mkGame (snake g) f (score g) (high_score g) (running g) (game_over g).
Definition set_score (g : Game) (n : Z) : Game :=
  mkGame (snake g) (food g) n (high_score g) (running g) (game_over g).
Definition set_high_score (g : Game) (n : Z) : Game :=
  mkGame (snake g) (food g) (score g) n (running g) (game_over g).
Definition set_running (g : Game) (b : bool) : Game :=
  mkGame (snake g) (food g) (score g) (high_score g) b (game_over g).
Definition set_game_over (g : Game) (b : bool) : Game :=
  mkGame (snake g) (food g) (score g) (high_score g) (running g) b.

(** [Game()]: a snake, then a food, then the counters and flags. *)
Definition Game_init (fuel : nat) (r : Rng) : outcome (Game * Rng) :=
  '(f, r') <- Food_init fuel r ;;
  Returns (mkGame Snake_init f 0 0 true false, r').

(** [Game.update]. A method of [Game] yields the value it returns (here
    always [None], written [tt]) together with the game and the random
    source it leaves. *)
Definition update (fuel : nat) (r : Rng) (g : Game) : outcome (unit * (Game * Rng)) :=
  if game_over g then Returns (tt, (g, r))
  else
    s1 <- move (snake g) ;;
    let g1 := set_snake g s1 in
    collided <- check_collision (snake g1) ;;
    if collided then
      let g2 := set_game_over g1 true in
      let g3 := if score g2 >? high_score g2
                then set_high_score g2 (score g2) else g2 in
      Returns (tt, (g3, r))
    else
      h <- get_head (snake g1) ;;
      if cell_eqb h (position (food g1)) then
        let g2 := set_snake g1 (grow (snake g1)) in
        let g3 := set_score g2 (score g2 + 10) in
        '(f, r') <- spawn fuel r (food g3) (Some (body (snake g3))) ;;
        Returns (tt, (set_food g3 f, r'))
      else
        Returns (tt, (g1, r)).

(** [Game.reset_game]. *)
Definition reset_game (fuel : nat) (r : Rng) (g : Game) : outcome (unit * (Game * Rng)) :=
  let g1 := set_snake g (reset (snake g)) in
  '(f, r') <- spawn fuel r (food g1) (Some (body (snake g1))) ;;
  let g2 := set_food g1 f in
  let g3 := set_score g2 0 in
  Returns (tt, (set_game_over g3 false, r')).

(** The events [handle_events] tells apart. *)
Inductive Key : Type :=
| K_SPACE | K_RETURN | K_ESCAPE
| K_UP | K_w | K_DOWN | K_s | K_LEFT | K_a | K_RIGHT | K_d
| K_other.

Inductive Event : Type :=
| QUIT
| KEYDOWN (key : Key)
| OTHER.

(** The body of the [for event in pygame.event.get()] loop. *)
Definition handle_event (fuel : nat) (r : Rng) (g : Game) (event : Event)
  : outcome (Game * Rng) :=
  match event with
  | QUIT => Returns (set_running g false, r)
  | KEYDOWN key =>
      if game_over g then
        match key with
        | K_SPACE | K_RETURN =>
            '(_, st) <- reset_game fuel r g ;; Returns st
        | K_ESCAPE => Returns (set_running g false, r)
        | _ => Returns (g, r)
        end
      else
        match key with
        | K_UP | K_w => Returns (set_snake g (change_direction (snake g) UP), r)
        | K_DOWN | K_s => Returns (set_snake g (change_direction (snake g) DOWN), r)
        | K_LEFT | K_a => Returns (set_snake g (change_direction (snake g) LEFT), r)
        | K_RIGHT | K_d => Returns (set_snake g (change_direction (snake g) RIGHT), r)
        | K_ESCAPE => Returns (set_running g false, r)
        | _ => Returns (g, r)
        end
  | OTHER => Returns (g, r)
  end.

Fixpoint handle_events (fuel : nat) (r : Rng) (g : Game) (events : list Event)
  : outcome (unit * (Game * Rng)) :=
  match events with
  | [] => Returns (tt, (g, r))
  | event :: events' =>
      '(g', r') <- handle_event fuel r g event ;;
      handle_events fuel r' g' events'
  end.

(** [n] successive calls of [update]. *)
Fixpoint updates (n : nat) (fuel : nat) (r : Rng) (g : Game) : outcome (Game * Rng) :=
  match n with
  | O => Returns (g, r)
  | S n' =>
      '(_, (g', r')) <- update fuel r g ;;
      updates n' fuel r' g'
  end.

(** ** Vocabulary of the statements *)

(** A cell of the playfield. *)
Definition in_grid (c : cell) : Prop :=
  0 <= fst c < GRID_WIDTH /\ 0 <= snd c < GRID_HEIGHT.

(** The cell one iteration of the loop of [spawn] samples, and the random
    source it leaves. *)
Definition draw_cell (g : Rng) : cell * Rng :=
  let '(x, g1) := randint 0 (GRID_WIDTH - 1) g in
  let '(y, g2) := randint 0 (GRID_HEIGHT - 1) g1 in
  ((x, y), g2).

(** The random source after [k] iterations, and the cell the next one samples. *)
Fixpoint after (k : nat) (g : Rng) : Rng :=
  match k with
  | O => g
  | S k' => after k' (snd (draw_cell g))
  end.

Definition sample (k : nat) (g : Rng) : cell := fst (draw_cell (after k g)).

(** Iteration [k] is the first one whose sample passes the exit test. *)
Definition first_accepted (snake_body : option (list cell)) (g : Rng) (k : nat) : Prop :=
  accepts snake_body (sample k g) = true /\
  forall j, (j < k)%nat -> accepts snake_body (sample j g) = false.

(** The random source samples, sooner or later, a cell that passes the test. *)
Definition draws_accepted (snake_body : option (list cell)) (g : Rng) : Prop :=
  exists k, accepts snake_body (sample k g) = true.

(** No amount of fuel lets the call return: the loop runs forever. *)
Definition spawn_diverges (g : Rng) (f : Food) (snake_body : option (list cell)) : Prop :=
  forall fuel, spawn fuel g f snake_body = OutOfFuel.

(** Every cell of the grid, row by row. *)
Definition all_cells : list cell :=
  flat_map (fun y => map (fun x => (x, y)) (py_range 0 GRID_WIDTH 1))
           (py_range 0 GRID_HEIGHT 1).

(** The move of this tick ends the run. *)
Definition run_ends (g : Game) : Prop :=
  game_over g = false /\
  exists s1, move (snake g) = Returns s1 /\ check_collision s1 = Returns true.

(** ** Concrete states *)

(** A random source that hands out 0 for ever: every sample is [(0, 0)]. *)
Definition zero_rng : Rng := fun _ => 0.

(** The snake of length three in the middle row, heading right, one cell
    before the food. *)
Definition scenario : Game :=
  mkGame (mkSnake [(18, 15); (19, 15); (20, 15)] RIGHT false)
         (mkFood (21, 15)) 0 0 true false.

(** A snake whose head is in the leftmost column, heading left. *)
Definition at_wall : Game :=
  mkGame (mkSnake [(2, 15); (1, 15); (0, 15)] LEFT false)
         (mkFood (7, 7)) 30 20 true false.

(** The scenario after the tick that eats the food, when the respawn
    samples [(0, 0)]. *)
Definition fed : Game :=
  mkGame (mkSnake [(19, 15); (20, 15); (21, 15)] RIGHT true)
         (mkFood (0, 0)) 10 0 true false.

(** A game that is over. *)
Definition ended : Game :=
  mkGame (mkSnake [(1, 15); (0, 15); (-1, 15)] LEFT false)
         (mkFood (7, 7)) 30 30 true true.

(** ** The main loop *)

(** [Game.run]: [while self.running:] handle the events, update, draw, wait
    for the clock. Each iteration is given the events [pygame.event.get()]
    returns in it; the loop is still running when the iterations the model
    is given are spent. Drawing and the clock read the game and write none
    of its fields. *)
Fixpoint run (fuel : nat) (r : Rng) (g : Game) (frames : list (list Event))
  : outcome (Game * Rng) :=
  match frames with
  | [] => if running g then OutOfFuel else Returns (g, r)
  | events :: frames' =>
      if running g then
        '(_, (g1, r1)) <- handle_events fuel r g events ;;
        '(_, (g2, r2)) <- update fuel r1 g1 ;;
        run fuel r2 g2 frames'
      else Returns (g, r)
  end.

(** [main]: build the game, run it. *)
Definition main (fuel : nat) (r : Rng) (frames : list (list Event))
  : outcome (Game * Rng) :=
  '(g, r') <- Game_init fuel r ;;
  run fuel r' g frames.

(** ** Drawing *)

Definition color : Type := (Z * Z * Z)%type.

Definition BLACK : color := (0, 0, 0).
Definition WHITE : color := (255, 255, 255).
Definition CYAN : color := (0, 255, 255).
Definition GRAY : color := (50, 50, 50).

(** [pygame.Rect(left, top, width, height)]. *)
Record Rect : Type := mkRect {
  rect_left : Z;
  rect_top : Z;
  rect_width : Z;
  rect_height : Z
}.

(** The calls a drawing method makes on the surface, in the order it makes
    them: [pygame.draw.rect(surface, color, rect, width)], where the width 0
    (the default) fills the rectangle, and
    [pygame.draw.line(surface, color, start_pos, end_pos)]. *)
Inductive DrawCall : Type :=
| draw_rect (c : color) (rect : Rect) (width : Z)
| draw_line (c : color) (start_pos end_pos : Z * Z).




(** [Game.draw_grid]. *)
Definition draw_grid : list DrawCall :=
  map (fun x => draw_line GRAY (x, 0) (x, WINDOW_HEIGHT))
      (py_range 0 WINDOW_WIDTH GRID_SIZE) ++
  map (fun y => draw_line GRAY (0, y) (WINDOW_WIDTH, y))
      (py_range 0 WINDOW_HEIGHT GRID_SIZE).

(** ** Vocabulary of the further statements *)

(** The last step of the body agrees with the direction: the head is the
    cell before it plus the unit vector. *)
Definition aligned (s : Snake) : Prop :=
  forall b neck head,
    body s = b ++ [neck; head] ->
    head = (fst neck + fst (value (direction s)),
            snd neck + snd (value (direction s))).

(** The arrow key and the letter key of a direction. *)
Definition arrow (d : Direction) : Key :=
  match d with UP => K_UP | DOWN => K_DOWN | LEFT => K_LEFT | RIGHT => K_RIGHT end.

Definition letter (d : Direction) : Key :=
  match d with UP => K_w | DOWN => K_s | LEFT => K_a | RIGHT => K_d end.

(** The events that ask to leave the program. *)
Definition quits (event : Event) : bool :=
  match event with
  | QUIT | KEYDOWN K_ESCAPE => true
  | _ => false
  end.

(** The events that restart a game that is over. *)
Definition restarts (event : Event) : bool :=
  match event with
  | KEYDOWN K_SPACE | KEYDOWN K_RETURN => true
  | _ => false
  end.

(** The games the main loop can be in at the top of an iteration: the one
    [Game()] builds, and the one an iteration leaves. *)
Inductive reachable : Game -> Prop :=
| reachable_init (fuel : nat) (r : Rng) (g : Game) (r' : Rng) :
    Game_init fuel r = Returns (g, r') -> reachable g
| reachable_frame (g : Game) (fuel : nat) (r : Rng) (events : list Event)
                  (g1 : Game) (r1 : Rng) (g2 : Game) (r2 : Rng) :
    reachable g ->
    handle_events fuel r g events = Returns (tt, (g1, r1)) ->
    update fuel r1 g1 = Returns (tt, (g2, r2)) ->
    reachable g2.


(** The rectangle of a cell, as [Snake.draw] and [Food.draw] compute it. *)
Definition cell_rect (c : cell) : Rect :=
  mkRect (fst c * GRID_SIZE) (snd c * GRID_SIZE) GRID_SIZE GRID_SIZE.


(** A random source whose every sample is the cell [c] of the grid. *)
Definition cell_rng (c : cell) : Rng :=
  fun n => if Nat.even n then fst c else snd c.

(** * Properties *)

(** ** Constants, cells and the deque *)

Lemma GRID_WIDTH_eq : GRID_WIDTH = 40.
Proof. reflexivity. Qed.

Lemma GRID_HEIGHT_eq : GRID_HEIGHT = 30.
Proof. reflexivity. Qed.

Lemma cell_eqb_eq (c1 c2 : cell) : cell_eqb c1 c2 = true <-> c1 = c2.
Proof.
  destruct c1 as [x1 y1], c2 as [x2 y2]; unfold cell_eqb; simpl.
  rewrite andb_true_iff, !Z.eqb_eq.
  split; [intros [-> ->]; reflexivity | intros H; inversion H; auto].
Qed.

Lemma cell_eqb_refl (c : cell) : cell_eqb c c = true.
Proof. apply cell_eqb_eq; reflexivity. Qed.

Lemma py_in_In (c : cell) (l : list cell) : py_in c l = true <-> In c l.
Proof.
  unfold py_in; rewrite existsb_exists; split.
  - intros [c' [Hin Heq]]. apply cell_eqb_eq in Heq. subst. exact Hin.
  - intros Hin. exists c. split; [exact Hin | apply cell_eqb_refl].
Qed.

Lemma py_in_false (c : cell) (l : list cell) : py_in c l = false <-> ~ In c l.
Proof.
  rewrite <- py_in_In. destruct (py_in c l); intuition congruence.
Qed.

Lemma deque_last_app {A : Type} (d : list A) (x : A) :
  deque_last (d ++ [x]) = Returns x.
Proof.
  induction d as [|a d IH]; simpl; [reflexivity|].
  destruct (d ++ [x]) eqn:E; [destruct d; discriminate | exact IH].
Qed.

(** A non-empty deque splits into what precedes its last element and that
    element, which is what [d[-1]] returns. *)
Lemma deque_last_split {A : Type} (d : list A) :
  d <> [] -> exists x, d = removelast d ++ [x] /\ deque_last d = Returns x.
Proof.
  intros Hne. destruct (exists_last Hne) as [d' [x E]].
  exists x. subst d. rewrite removelast_last, deque_last_app. split; reflexivity.
Qed.

Lemma deque_last_returns {A : Type} (d : list A) (x : A) :
  deque_last d = Returns x -> d = removelast d ++ [x].
Proof.
  intros H. destruct d as [|a d]; [discriminate|].
  destruct (@deque_last_split A (a :: d)) as [y [E Hy]]; [discriminate|].
  rewrite H in Hy. inversion Hy; subst. exact E.
Qed.

(** ** Direction *)

Lemma opposite_table (h : Direction) :
  dict_get opposite_directions h = Some (opposite h).
Proof. destruct h; reflexivity. Qed.

Lemma opposite_involutive (h : Direction) : opposite (opposite h) = h.
Proof. destruct h; reflexivity. Qed.

(** The table pairs each direction with the one of the negated unit vector. *)
Lemma opposite_value (h : Direction) :
  value (opposite h) = (- fst (value h), - snd (value h)).
Proof. destruct h; reflexivity. Qed.

Lemma Direction_eqb_eq (a b : Direction) : Direction_eqb a b = true <-> a = b.
Proof. destruct a, b; simpl; split; intros H; try reflexivity; discriminate. Qed.

(** ** Snake *)

Section SnakeProperties.

Variable s : Snake.

(** The head of a snake with a non-empty body is returned, and is the
    cell at the last index. *)
Lemma get_head_returns :
  body s <> [] ->
  exists h, get_head s = Returns h /\ body s = removelast (body s) ++ [h].
Proof.
  intros Hne. destruct (deque_last_split (body s) Hne) as [h [E Hh]].
  exists h. split; assumption.
Qed.

Lemma move_unfold (h : cell) :
  get_head s = Returns h ->
  move s =
  Returns (mkSnake
             (if grow_pending s
              then body s ++ [(fst h + fst (value (direction s)),
                               snd h + snd (value (direction s)))]
              else tl (body s ++ [(fst h + fst (value (direction s)),
                                   snd h + snd (value (direction s)))]))
             (direction s) false).
Proof.
  intros Hh. unfold move. rewrite Hh. destruct h as [hx hy]. simpl.
  destruct (value (direction s)) as [dx dy]. simpl.
  destruct (grow_pending s) eqn:G; simpl.
  - reflexivity.
  - unfold deque_append. destruct (body s) as [|c l]; simpl; unfold set_body; simpl;
      rewrite G; reflexivity.
Qed.

End SnakeProperties.

(** The head occurs in the body before the last index exactly when it is a
    member of the body without its last element. *)
Lemma elsewhere_iff (b : list cell) (h : cell) :
  In h b <->
  exists i, i <> (length (b ++ [h]) - 1)%nat /\ nth_error (b ++ [h]) i = Some h.
Proof.
  rewrite length_app; simpl. split.
  - intros Hin. apply In_nth_error in Hin. destruct Hin as [i Hi].
    assert (i < length b)%nat by (apply nth_error_Some; congruence).
    exists i. split; [lia|]. rewrite nth_error_app1 by assumption. exact Hi.
  - intros [i [Hne Hi]].
    assert (i < length (b ++ [h]))%nat by (apply nth_error_Some; congruence).
    rewrite length_app in H; simpl in H.
    rewrite nth_error_app1 in Hi by lia.
    eapply nth_error_In; eassumption.
Qed.

(** C3. For a snake with a non-empty body, [check_collision] returns a
    boolean, and that boolean is true exactly when the head (the cell at
    the last index) has [head_x < 0], [head_x >= GRID_WIDTH], [head_y < 0]
    or [head_y >= GRID_HEIGHT], or the head's cell occurs in the body at an
    index other than the last one. *)
Theorem check_collision_iff (s : Snake) :
  body s <> [] ->
  exists head_x head_y collided,
    get_head s = Returns (head_x, head_y) /\
    nth_error (body s) (length (body s) - 1) = Some (head_x, head_y) /\
    check_collision s = Returns collided /\
    (collided = true <->
     head_x < 0 \/ head_x >= GRID_WIDTH \/ head_y < 0 \/ head_y >= GRID_HEIGHT \/
     exists i, i <> (length (body s) - 1)%nat /\
               nth_error (body s) i = Some (head_x, head_y)).
Proof.
  intros Hne. destruct (get_head_returns s Hne) as [[hx hy] [Hh E]].
  set (b := removelast (body s)) in *.
  assert (Hlast : nth_error (body s) (length (body s) - 1) = Some (hx, hy)).
  { rewrite E, length_app; simpl.
    rewrite nth_error_app2 by lia.
    replace (length b + 1 - 1 - length b)%nat with 0%nat by lia. reflexivity. }
  assert (Hin : py_in (hx, hy) b = true <->
                exists i, i <> (length (body s) - 1)%nat /\
                          nth_error (body s) i = Some (hx, hy)).
  { rewrite py_in_In, elsewhere_iff, <- E. reflexivity. }
  unfold check_collision. rewrite Hh. simpl.
  destruct ((hx <? 0) || (hx >=? GRID_WIDTH) || (hy <? 0) || (hy >=? GRID_HEIGHT))
    eqn:W.
  - exists hx, hy, true. repeat split; try assumption.
    intros _. rewrite !orb_true_iff in W.
    rewrite Z.ltb_lt, Z.geb_le, Z.ltb_lt, Z.geb_le in W. lia.
  - rewrite !orb_false_iff in W. destruct W as [[[W1 W2] W3] W4].
    rewrite Z.ltb_ge in W1, W3. rewrite Z.geb_leb, Z.leb_gt in W2, W4.
    fold b. destruct (py_in (hx, hy) b) eqn:P.
    + exists hx, hy, true. repeat split; try assumption.
      intros _. right; right; right; right. apply Hin. reflexivity.
    + exists hx, hy, false. repeat split; try assumption; try discriminate.
      intros [H|[H|[H|[H|H]]]]; try lia.
      apply Hin in H. discriminate.
Qed.

Lemma check_collision_iff_witness :
  exists head_x head_y collided,
    get_head (mkSnake [(5, 5); (6, 5); (5, 5)] LEFT false) = Returns (head_x, head_y) /\
    nth_error [(5, 5); (6, 5); (5, 5)] 2 = Some (head_x, head_y) /\
    check_collision (mkSnake [(5, 5); (6, 5); (5, 5)] LEFT false) = Returns collided /\
    (collided = true <->
     head_x < 0 \/ head_x >= GRID_WIDTH \/ head_y < 0 \/ head_y >= GRID_HEIGHT \/
     exists i, i <> 2%nat /\
               nth_error [(5, 5); (6, 5); (5, 5)] i = Some (head_x, head_y)).
Proof.
  apply (check_collision_iff (mkSnake [(5, 5); (6, 5); (5, 5)] LEFT false)).
  simpl. discriminate.
Defined.

Lemma tl_app_nonempty {A : Type} (l : list A) (x : A) :
  l <> [] -> tl (l ++ [x]) = tl l ++ [x].
Proof. destruct l; [congruence | reflexivity]. Qed.

(** C4. For a snake with a non-empty body, [move] returns; the new head is
    the old head plus the unit vector of the direction; it is appended
    first, and the tail is popped from the deque that already holds it
    exactly when no growth was pending; the length is unchanged when
    [grow_pending] was false and one more when it was true; [grow_pending]
    is false afterwards. *)
Theorem move_spec (s : Snake) :
  body s <> [] ->
  exists head_x head_y s',
    get_head s = Returns (head_x, head_y) /\
    move s = Returns s' /\
    get_head s' = Returns (head_x + fst (value (direction s)),
                           head_y + snd (value (direction s))) /\
    (grow_pending s = true ->
       body s' = deque_append (body s)
                   (head_x + fst (value (direction s)),
                    head_y + snd (value (direction s))) /\
       length (body s') = S (length (body s))) /\
    (grow_pending s = false ->
       (exists tail_cell,
          nth_error (body s) 0 = Some tail_cell /\
          deque_popleft (deque_append (body s)
                           (head_x + fst (value (direction s)),
                            head_y + snd (value (direction s))))
          = Returns (tail_cell, body s')) /\
       length (body s') = length (body s)) /\
    grow_pending s' = false /\
    direction s' = direction s.
Proof.
  intros Hne. destruct (get_head_returns s Hne) as [[hx hy] [Hh E]].
  exists hx, hy. eexists. split; [exact Hh|].
  split; [apply (move_unfold s (hx, hy) Hh)|]. simpl.
  set (nh := (hx + fst (value (direction s)), hy + snd (value (direction s)))).
  unfold get_head, deque_append. simpl.
  split; [|split; [|split; [|split; reflexivity]]].
  - destruct (grow_pending s).
    + apply deque_last_app.
    + rewrite tl_app_nonempty by assumption. apply deque_last_app.
  - intros G. rewrite G. split; [reflexivity|].
    rewrite length_app. simpl. lia.
  - intros G. rewrite G. destruct (body s) as [|t l]; [congruence|].
    simpl. split.
    + exists t. split; reflexivity.
    + rewrite length_app. simpl. lia.
Qed.

Lemma move_spec_witness :
  exists head_x head_y s',
    get_head (mkSnake [(18, 15); (19, 15); (20, 15)] UP true) = Returns (head_x, head_y) /\
    move (mkSnake [(18, 15); (19, 15); (20, 15)] UP true) = Returns s' /\
    get_head s' = Returns (head_x + 0, head_y + -1) /\
    (true = true ->
       body s' = [(18, 15); (19, 15); (20, 15)] ++ [(head_x + 0, head_y + -1)] /\
       length (body s') = 4%nat) /\
    (true = false ->
       (exists tail_cell,
          Some (18, 15) = Some tail_cell /\
          deque_popleft ([(18, 15); (19, 15); (20, 15)] ++ [(head_x + 0, head_y + -1)])
          = Returns (tail_cell, body s')) /\
       length (body s') = 3%nat) /\
    grow_pending s' = false /\
    direction s' = UP.
Proof.
  apply (move_spec (mkSnake [(18, 15); (19, 15); (20, 15)] UP true)).
  simpl. discriminate.
Defined.

(** C5. [change_direction] with a request other than the opposite of the
    current direction sets the direction to the request; with the opposite
    it returns the snake as it was. It is a total function (nothing is
    raised) and in both cases the body and [grow_pending] are untouched. *)
Theorem change_direction_spec (s : Snake) (d : Direction) :
  (d <> opposite (direction s) ->
     change_direction s d = mkSnake (body s) d (grow_pending s)) /\
  (d = opposite (direction s) -> change_direction s d = s) /\
  body (change_direction s d) = body s /\
  grow_pending (change_direction s d) = grow_pending s.
Proof.
  unfold change_direction. rewrite opposite_table. simpl.
  destruct (Direction_eqb d (opposite (direction s))) eqn:E; simpl.
  - apply Direction_eqb_eq in E. repeat split; congruence.
  - assert (d <> opposite (direction s)).
    { intros H. apply Direction_eqb_eq in H. congruence. }
    repeat split; congruence.
Qed.

Lemma change_direction_spec_witness :
  change_direction (mkSnake [(18, 15); (19, 15); (20, 15)] RIGHT false) UP
  = mkSnake [(18, 15); (19, 15); (20, 15)] UP false /\
  change_direction (mkSnake [(18, 15); (19, 15); (20, 15)] RIGHT false) LEFT
  = mkSnake [(18, 15); (19, 15); (20, 15)] RIGHT false.
Proof.
  split.
  - apply (change_direction_spec
             (mkSnake [(18, 15); (19, 15); (20, 15)] RIGHT false) UP).
    simpl. discriminate.
  - apply (change_direction_spec
             (mkSnake [(18, 15); (19, 15); (20, 15)] RIGHT false) LEFT).
    reflexivity.
Defined.

Lemma NoDup_snoc (l : list cell) (x : cell) :
  NoDup l -> ~ In x l -> NoDup (l ++ [x]).
Proof.
  intros Hl Hx. apply NoDup_app; [exact Hl | repeat constructor; intros [] | ].
  intros a Ha [<-|[]]. exact (Hx Ha).
Qed.

(** C6. If the cells of the body are pairwise distinct, [move] returns
    and [check_collision] then returns false, the cells of the body after
    the move are pairwise distinct again, with or without pending growth. *)
Theorem move_preserves_distinct (s s' : Snake) :
  NoDup (body s) ->
  move s = Returns s' ->
  check_collision s' = Returns false ->
  NoDup (body s').
Proof.
  intros Hnd Hmove Hcoll.
  assert (Hne : body s <> []).
  { intros E. unfold move, get_head in Hmove. rewrite E in Hmove. discriminate. }
  destruct (get_head_returns s Hne) as [h [Hh _]].
  rewrite (move_unfold s h Hh) in Hmove.
  remember (fst h + fst (value (direction s)), snd h + snd (value (direction s)))
    as nh eqn:Enh. clear Enh.
  assert (Hb : exists b, NoDup b /\ body s' = b ++ [nh]).
  { injection Hmove as <-. simpl. destruct (grow_pending s).
    - exists (body s). split; [assumption | reflexivity].
    - exists (tl (body s)). split; [| apply tl_app_nonempty; assumption].
      destruct (body s); [constructor | inversion Hnd; assumption]. }
  destruct Hb as [b [Hndb Eb]].
  rewrite Eb. apply NoDup_snoc; [exact Hndb|].
  apply py_in_false.
  unfold check_collision, get_head in Hcoll. rewrite Eb in Hcoll.
  rewrite deque_last_app in Hcoll. destruct nh as [nx ny]. simpl in Hcoll.
  destruct ((nx <? 0) || (nx >=? GRID_WIDTH) ||
            (ny <? 0) || (ny >=? GRID_HEIGHT)); [discriminate|].
  rewrite removelast_last in Hcoll.
  destruct (py_in (nx, ny) b); [discriminate | reflexivity].
Qed.

Lemma move_preserves_distinct_witness :
  NoDup (body (mkSnake [(19, 15); (20, 15); (21, 15); (21, 16)] DOWN false)).
Proof.
  apply (move_preserves_distinct
           (mkSnake [(19, 15); (20, 15); (21, 15)] DOWN true)
           (mkSnake [(19, 15); (20, 15); (21, 15); (21, 16)] DOWN false)).
  - simpl. repeat constructor; simpl; intuition discriminate.
  - reflexivity.
  - reflexivity.
Defined.

(** ** Food *)

Lemma spawn_unfold (fuel : nat) (g : Rng) (f : Food) (sb : option (list cell)) :
  spawn (S fuel) g f sb =
  if accepts sb (fst (draw_cell g))
  then Returns (mkFood (fst (draw_cell g)), snd (draw_cell g))
  else spawn fuel (snd (draw_cell g)) f sb.
Proof. reflexivity. Qed.

(** [randint] stays within the range it is given. *)
Lemma randint_range (a b : Z) (g : Rng) :
  a <= b -> a <= fst (randint a b g) <= b.
Proof.
  intros Hab. unfold randint. simpl.
  pose proof (Z.mod_pos_bound (g 0%nat) (b - a + 1)). lia.
Qed.

(** Every value of the range is what [randint] returns on some source. *)
Lemma randint_onto (a b v : Z) :
  a <= v <= b -> fst (randint a b (fun _ => v - a)) = v.
Proof.
  intros Hv. unfold randint. simpl. rewrite Z.mod_small by lia. lia.
Qed.

Lemma draw_cell_in_grid (g : Rng) : in_grid (fst (draw_cell g)).
Proof.
  unfold in_grid, draw_cell.
  pose proof (randint_range 0 (GRID_WIDTH - 1) g) as Hx.
  pose proof (randint_range 0 (GRID_HEIGHT - 1) (snd (randint 0 (GRID_WIDTH - 1) g))) as Hy.
  rewrite GRID_WIDTH_eq in *. rewrite GRID_HEIGHT_eq in *.
  simpl in *. lia.
Qed.

Lemma sample_in_grid (k : nat) (g : Rng) : in_grid (sample k g).
Proof. apply draw_cell_in_grid. Qed.

Lemma sample_S (k : nat) (g : Rng) :
  sample (S k) g = sample k (snd (draw_cell g)).
Proof. reflexivity. Qed.

Section SpawnLoop.

Variable f : Food.
Variable sb : option (list cell).

(** With fuel for more than [k] iterations, the loop returns the first
    accepted sample. *)
Lemma spawn_first_accepted (k : nat) :
  forall (g : Rng) (fuel : nat),
    first_accepted sb g k -> (k < fuel)%nat ->
    spawn fuel g f sb = Returns (mkFood (sample k g), after (S k) g).
Proof.
  induction k as [|k IH]; intros g fuel [Hk Hlt] Hfuel;
    (destruct fuel as [|fuel]; [lia|]); rewrite spawn_unfold.
  - change (sample 0 g) with (fst (draw_cell g)) in Hk. rewrite Hk. reflexivity.
  - assert (H0 : accepts sb (fst (draw_cell g)) = false).
    { apply (Hlt 0%nat). lia. }
    rewrite H0. rewrite sample_S. apply IH; [|lia].
    split; [exact Hk|]. intros j Hj. apply (Hlt (S j)). lia.
Qed.

(** While every sample so far is refused, the loop is still running. *)
Lemma spawn_all_refused (fuel : nat) :
  forall g : Rng,
    (forall j, (j < fuel)%nat -> accepts sb (sample j g) = false) ->
    spawn fuel g f sb = OutOfFuel.
Proof.
  induction fuel as [|fuel IH]; intros g Hall; [reflexivity|].
  rewrite spawn_unfold.
  assert (H0 : accepts sb (fst (draw_cell g)) = false).
  { apply (Hall 0%nat). lia. }
  rewrite H0. apply IH. intros j Hj. apply (Hall (S j)). lia.
Qed.

(** What the loop returns is the first accepted sample. *)
Lemma spawn_returns_inv (fuel : nat) :
  forall (g : Rng) (f' : Food) (g' : Rng),
    spawn fuel g f sb = Returns (f', g') ->
    exists k, (k < fuel)%nat /\ first_accepted sb g k /\
              f' = mkFood (sample k g) /\ g' = after (S k) g.
Proof.
  induction fuel as [|fuel IH]; intros g f' g' H; [discriminate|].
  rewrite spawn_unfold in H.
  destruct (accepts sb (fst (draw_cell g))) eqn:A.
  - inversion H; subst. exists 0%nat.
    split; [lia|]. split; [|split; reflexivity].
    split; [exact A | intros j Hj; lia].
  - destruct (IH _ _ _ H) as [k [Hk [[Hacc Hlt] [-> ->]]]].
    exists (S k). split; [lia|]. split; [|split; reflexivity].
    split; [exact Hacc|].
    intros [|j] Hj; [exact A|]. apply Hlt. lia.
Qed.

Lemma spawn_never_raises (fuel : nat) :
  forall (g : Rng) (e : exn), spawn fuel g f sb <> Raises e.
Proof.
  induction fuel as [|fuel IH]; intros g e; [discriminate|].
  rewrite spawn_unfold.
  destruct (accepts sb (fst (draw_cell g))); [discriminate | apply IH].
Qed.

(** Among the iterations before [n], either one is the first accepted, or
    all are refused. *)
Lemma first_accepted_search (g : Rng) (n : nat) :
  (exists k, (k < n)%nat /\ first_accepted sb g k) \/
  (forall j, (j < n)%nat -> accepts sb (sample j g) = false).
Proof.
  induction n as [|n [[k [Hk Hf]]|Hall]].
  - right. intros j Hj. lia.
  - left. exists k. split; [lia | exact Hf].
  - destruct (accepts sb (sample n g)) eqn:A.
    + left. exists n. split; [lia|]. split; assumption.
    + right. intros j Hj.
      destruct (Nat.eq_dec j n) as [->|Hne]; [exact A | apply Hall; lia].
Qed.

Lemma draws_accepted_first (g : Rng) :
  draws_accepted sb g -> exists k, first_accepted sb g k.
Proof.
  intros [k Hk]. destruct (first_accepted_search g (S k)) as [[k0 [_ H]]|Hall].
  - exists k0. exact H.
  - rewrite Hall in Hk by lia. discriminate.
Qed.

(** The loop returns for some fuel exactly when the source draws an
    accepted cell. *)
Lemma spawn_returns_iff (g : Rng) :
  (exists fuel r, spawn fuel g f sb = Returns r) <-> draws_accepted sb g.
Proof.
  split.
  - intros [fuel [[f' g'] H]].
    destruct (spawn_returns_inv _ _ _ _ H) as [k [_ [[Hk _] _]]].
    exists k. exact Hk.
  - intros H. destruct (draws_accepted_first g H) as [k Hk].
    exists (S k). eexists. apply spawn_first_accepted; [exact Hk | lia].
Qed.

End SpawnLoop.

Lemma In_py_range_up (n x : Z) :
  In x (py_range 0 n 1) <-> 0 <= x < n.
Proof.
  unfold py_range, range_len. simpl.
  rewrite in_map_iff. split.
  - intros [k [<- Hk]]. apply in_seq in Hk.
    destruct (0 <? n) eqn:E.
    + apply Z.ltb_lt in E. rewrite Z.sub_0_r, Z.div_1_r in Hk. lia.
    + simpl in Hk. lia.
  - intros Hx. exists (Z.to_nat x). split; [lia|].
    apply in_seq. destruct (0 <? n) eqn:E.
    + rewrite Z.sub_0_r, Z.div_1_r. lia.
    + apply Z.ltb_ge in E. lia.
Qed.

Lemma all_cells_complete (c : cell) : in_grid c -> In c all_cells.
Proof.
  destruct c as [x y]. intros [Hx Hy]. cbn [fst snd] in Hx, Hy. unfold all_cells.
  apply in_flat_map. exists y. split; [apply In_py_range_up; exact Hy|].
  apply in_map_iff. exists x. split; [reflexivity | apply In_py_range_up; exact Hx].
Qed.

(** On a grid without a free cell the loop never ends. *)
Lemma spawn_full_grid (g : Rng) (f : Food) (occupied : list cell) :
  (forall c, in_grid c -> In c occupied) -> spawn_diverges g f (Some occupied).
Proof.
  intros Hfull fuel. apply spawn_all_refused. intros j _.
  unfold accepts. apply negb_false_iff. apply py_in_In.
  apply Hfull. apply sample_in_grid.
Qed.

(** C2 (as amended). [spawn] has no retry cap. With fuel for more than [k]
    iterations it returns the first accepted sample when that is the
    [k]-th; it returns for some fuel exactly when the random source draws
    an accepted cell; with no body given it returns at the first
    iteration; it never raises; and when the occupied cells cover the
    whole grid it never returns, so that no board-full condition is
    surfaced. *)
Theorem spawn_unbounded_retry (g : Rng) (f : Food) (sb : option (list cell)) :
  (forall k fuel, first_accepted sb g k -> (k < fuel)%nat ->
     spawn fuel g f sb = Returns (mkFood (sample k g), after (S k) g)) /\
  ((exists fuel r, spawn fuel g f sb = Returns r) <-> draws_accepted sb g) /\
  (sb = None ->
     forall fuel, spawn (S fuel) g f sb = Returns (mkFood (sample 0 g), after 1 g)) /\
  (forall fuel e, spawn fuel g f sb <> Raises e) /\
  (forall occupied, sb = Some occupied ->
     (forall c, in_grid c -> In c occupied) -> spawn_diverges g f sb).
Proof.
  split; [|split; [|split; [|split]]].
  - intros k fuel Hk Hfuel. apply spawn_first_accepted; assumption.
  - apply spawn_returns_iff.
  - intros -> fuel. reflexivity.
  - intros fuel e. apply spawn_never_raises.
  - intros occupied -> Hfull. apply spawn_full_grid. exact Hfull.
Qed.

Lemma spawn_unbounded_retry_witness :
  spawn 3 zero_rng (mkFood (21, 15)) (Some [(19, 15); (20, 15); (21, 15)])
  = Returns (mkFood (sample 0 zero_rng), after 1 zero_rng).
Proof.
  apply (proj1 (spawn_unbounded_retry zero_rng (mkFood (21, 15))
                  (Some [(19, 15); (20, 15); (21, 15)])) 0%nat 3%nat).
  - split; [reflexivity | intros j Hj; lia].
  - lia.
Defined.

(** C2, as stated, fails: with every cell of the 40 x 30 grid occupied,
    [spawn] returns for no amount of fuel, whatever the random source. *)
Lemma spawn_full_grid_counterexample :
  (length all_cells = 1200%nat /\ py_in (39, 29) all_cells = true) /\
  spawn 5000 zero_rng (mkFood (0, 0)) (Some all_cells) = OutOfFuel /\
  spawn_diverges zero_rng (mkFood (0, 0)) (Some all_cells) /\
  ~ (exists g fuel r,
       spawn fuel g (mkFood (0, 0)) (Some all_cells) = Returns r).
Proof.
  assert (D : forall g, spawn_diverges g (mkFood (0, 0)) (Some all_cells)).
  { intros g. apply spawn_full_grid. exact all_cells_complete. }
  split; [split; reflexivity|].
  split; [apply D|]. split; [apply D|].
  intros [g [fuel [r H]]]. rewrite (D g fuel) in H. discriminate.
Qed.

(** ** Game *)

Lemma reset_eq (s : Snake) :
  reset s = mkSnake [(18, 15); (19, 15); (20, 15)] RIGHT false.
Proof. reflexivity. Qed.

Section UpdateRunning.

Variables (fuel : nat) (r : Rng) (g : Game) (s1 : Snake).
Hypothesis Hrun : game_over g = false.
Hypothesis Hmove : move (snake g) = Returns s1.

(** The tick on which the snake collides. *)
Lemma update_collision :
  check_collision s1 = Returns true ->
  update fuel r g =
  Returns (tt, (mkGame s1 (food g) (score g)
                       (Z.max (high_score g) (score g)) (running g) true, r)).
Proof.
  intros Hc. unfold update. rewrite Hrun, Hmove. simpl. rewrite Hc. simpl.
  destruct (score g >? high_score g) eqn:E; unfold set_high_score; simpl.
  - rewrite Z.gtb_ltb, Z.ltb_lt in E. rewrite Z.max_r by lia. reflexivity.
  - rewrite Z.gtb_ltb, Z.ltb_ge in E. rewrite Z.max_l by lia. reflexivity.
Qed.

(** A tick without collision and away from the food. *)
Lemma update_plain (h : cell) :
  check_collision s1 = Returns false ->
  get_head s1 = Returns h ->
  h <> position (food g) ->
  update fuel r g =
  Returns (tt, (mkGame s1 (food g) (score g) (high_score g) (running g) false, r)).
Proof.
  intros Hc Hh Hne. unfold update. rewrite Hrun, Hmove. simpl. rewrite Hc. simpl.
  rewrite Hh. simpl.
  destruct (cell_eqb h (position (food g))) eqn:E.
  - apply cell_eqb_eq in E. contradiction.
  - unfold set_snake. rewrite Hrun. reflexivity.
Qed.

(** A tick without collision that lands on the food: what remains to be
    run is the loop of [spawn]. *)
Lemma update_eat (h : cell) :
  check_collision s1 = Returns false ->
  get_head s1 = Returns h ->
  h = position (food g) ->
  update fuel r g =
  ('(f, r') <- spawn fuel r (food g) (Some (body s1)) ;;
   Returns (tt, (mkGame (grow s1) f (score g + 10) (high_score g) (running g) false,
                 r'))).
Proof.
  intros Hc Hh He. unfold update. rewrite Hrun, Hmove. simpl. rewrite Hc. simpl.
  rewrite Hh. simpl. rewrite He, cell_eqb_refl. simpl.
  destruct (spawn fuel r (food g) (Some (body s1))) as [[f r']| |]; simpl;
    try reflexivity.
  unfold set_food. simpl. rewrite Hrun. reflexivity.
Qed.

End UpdateRunning.

Lemma check_collision_returns (s : Snake) :
  body s <> [] -> exists collided, check_collision s = Returns collided.
Proof.
  intros Hne. destruct (get_head_returns s Hne) as [[hx hy] [Hh _]].
  unfold check_collision. rewrite Hh. simpl.
  destruct ((hx <? 0) || (hx >=? GRID_WIDTH) || (hy <? 0) || (hy >=? GRID_HEIGHT)).
  - exists true. reflexivity.
  - destruct (py_in (hx, hy) (removelast (body s)));
      [exists true | exists false]; reflexivity.
Qed.

(** After [move] the body ends with the new head. *)
Lemma move_body_snoc (s s1 : Snake) :
  move s = Returns s1 ->
  exists h b,
    get_head s = Returns h /\
    body s1 = b ++ [(fst h + fst (value (direction s)),
                     snd h + snd (value (direction s)))].
Proof.
  intros Hmove.
  assert (Hne : body s <> []).
  { intros E. unfold move, get_head in Hmove. rewrite E in Hmove. discriminate. }
  destruct (get_head_returns s Hne) as [h [Hh _]].
  rewrite (move_unfold s h Hh) in Hmove. injection Hmove as <-. simpl.
  exists h. destruct (grow_pending s).
  - exists (body s). split; [exact Hh | reflexivity].
  - exists (tl (body s)). split; [exact Hh | apply tl_app_nonempty; exact Hne].
Qed.

(** A snake returned by [move] has a head, and [check_collision]
    returns on it. *)
Lemma move_then_check (s s1 : Snake) :
  move s = Returns s1 ->
  exists h collided, get_head s1 = Returns h /\ check_collision s1 = Returns collided.
Proof.
  intros Hmove. destruct (move_body_snoc s s1 Hmove) as [h [b [_ Eb]]].
  assert (Hne1 : body s1 <> []).
  { rewrite Eb. destruct b; discriminate. }
  destruct (get_head_returns s1 Hne1) as [h1 [Hh1 _]].
  destruct (check_collision_returns s1 Hne1) as [c Hc].
  exists h1, c. split; assumption.
Qed.

Lemma accepts_not_in (b : list cell) (c : cell) :
  accepts (Some b) c = true -> ~ In c b.
Proof.
  unfold accepts. intros H. apply negb_true_iff in H. apply py_in_false. exact H.
Qed.

(** What a tick that lands on the food returns, when it returns. *)
Lemma update_eat_inv (fuel : nat) (r : Rng) (g : Game) (s1 : Snake) (h : cell)
      (g' : Game) (r' : Rng) :
  game_over g = false ->
  move (snake g) = Returns s1 ->
  check_collision s1 = Returns false ->
  get_head s1 = Returns h ->
  h = position (food g) ->
  update fuel r g = Returns (tt, (g', r')) ->
  exists k, (k < fuel)%nat /\ first_accepted (Some (body s1)) r k /\
            g' = mkGame (grow s1) (mkFood (sample k r)) (score g + 10)
                        (high_score g) (running g) false /\
            r' = after (S k) r.
Proof.
  intros Hrun Hmove Hc Hh He H.
  rewrite (update_eat fuel r g s1 Hrun Hmove h Hc Hh He) in H.
  destruct (spawn fuel r (food g) (Some (body s1))) as [[f r0]| |] eqn:S;
    simpl in H; try discriminate.
  destruct (spawn_returns_inv _ _ _ _ _ _ S) as [k [Hk [Hf [-> ->]]]].
  exists k. inversion H; subst. repeat split; try assumption; apply Hf.
Qed.

(** C1 (as amended). In a running game whose snake has a body, one call of
    [update] moves the snake and checks for a collision. On a collision it
    sets [game_over] and makes [high_score] the maximum of [high_score]
    and [score]; the value returned is [None] as on every other path, so
    the end of the run shows in [game_over] only. Otherwise, when the new
    head is on the food, growth is requested for the next move (the body
    is the one the move left), the score goes up by exactly 10 and the
    food goes to the first sampled cell that is not in the body: the call
    returns as soon as the fuel reaches that sample. In the scenario
    (body [(18,15),(19,15),(20,15)], heading RIGHT, food at (21,15)) the
    body after the tick is [(19,15),(20,15),(21,15)] with growth pending,
    the score is 10, the food is off the body, the game goes on, and the
    next move makes the body [(19,15),(20,15),(21,15),(22,15)]. *)
Theorem update_running_tick :
  (forall (fuel : nat) (r : Rng) (g : Game),
     game_over g = false -> body (snake g) <> [] ->
     exists s1 collided h,
       move (snake g) = Returns s1 /\
       check_collision s1 = Returns collided /\
       get_head s1 = Returns h /\
       (collided = true ->
          update fuel r g =
          Returns (tt, (mkGame s1 (food g) (score g)
                               (Z.max (high_score g) (score g)) (running g) true, r))) /\
       (collided = false -> h <> position (food g) ->
          update fuel r g =
          Returns (tt, (mkGame s1 (food g) (score g) (high_score g) (running g) false,
                        r))) /\
       (collided = false -> h = position (food g) ->
          (forall k, first_accepted (Some (body s1)) r k -> (k < fuel)%nat ->
             update fuel r g =
             Returns (tt, (mkGame (grow s1) (mkFood (sample k r)) (score g + 10)
                                  (high_score g) (running g) false,
                           after (S k) r))) /\
          (forall g' r', update fuel r g = Returns (tt, (g', r')) ->
             snake g' = grow s1 /\
             grow_pending (snake g') = true /\
             body (snake g') = body s1 /\
             score g' = score g + 10 /\
             ~ In (position (food g')) (body (snake g')) /\
             in_grid (position (food g')) /\
             high_score g' = high_score g /\
             game_over g' = false))) /\
  (forall fuel r g' r',
     update fuel r scenario = Returns (tt, (g', r')) ->
     snake g' = mkSnake [(19, 15); (20, 15); (21, 15)] RIGHT true /\
     score g' = 10 /\
     ~ In (position (food g')) (body (snake g')) /\
     game_over g' = false /\
     move (snake g') =
     Returns (mkSnake [(19, 15); (20, 15); (21, 15); (22, 15)] RIGHT false)) /\
  (forall r, draws_accepted (Some [(19, 15); (20, 15); (21, 15)]) r ->
     exists fuel g' r', update fuel r scenario = Returns (tt, (g', r'))).
Proof.
  split; [|split].
  - intros fuel r g Hrun Hne.
    destruct (get_head_returns (snake g) Hne) as [h0 [Hh0 _]].
    pose proof (move_unfold (snake g) h0 Hh0) as Hmove.
    destruct (move_then_check _ _ Hmove) as [h [c [Hh Hc]]].
    eexists. exists c, h.
    split; [exact Hmove|]. split; [exact Hc|]. split; [exact Hh|].
    split; [|split].
    + intros ->. apply update_collision; assumption.
    + intros -> Hfood. apply (update_plain fuel r g _ Hrun Hmove h); assumption.
    + intros -> Hfood. split.
      * intros k Hk Hfuel.
        rewrite (update_eat fuel r g _ Hrun Hmove h Hc Hh Hfood).
        rewrite (spawn_first_accepted _ _ k r fuel Hk Hfuel). reflexivity.
      * intros g' r' H.
        destruct (update_eat_inv fuel r g _ h g' r' Hrun Hmove Hc Hh Hfood H)
          as [k [_ [[Hacc _] [-> _]]]].
        split; [reflexivity|]. split; [reflexivity|]. split; [reflexivity|].
        split; [reflexivity|].
        split; [exact (accepts_not_in _ _ Hacc)|].
        split; [apply sample_in_grid|]. split; reflexivity.
  - intros fuel r g' r' H.
    destruct (update_eat_inv fuel r scenario
                (mkSnake [(19, 15); (20, 15); (21, 15)] RIGHT false) (21, 15) g' r'
                eq_refl eq_refl eq_refl eq_refl eq_refl H)
      as [k [_ [[Hacc _] [-> _]]]].
    split; [reflexivity|]. split; [reflexivity|].
    split; [exact (accepts_not_in _ _ Hacc)|]. split; reflexivity.
  - intros r Hd.
    destruct (draws_accepted_first _ r Hd) as [k Hk].
    exists (S k). do 2 eexists.
    rewrite (update_eat (S k) r scenario
               (mkSnake [(19, 15); (20, 15); (21, 15)] RIGHT false)
               eq_refl eq_refl (21, 15) eq_refl eq_refl eq_refl).
    rewrite (spawn_first_accepted _ _ k r (S k) Hk (Nat.lt_succ_diag_r k)).
    reflexivity.
Qed.

Lemma update_running_tick_witness :
  update 0 zero_rng at_wall =
  Returns (tt, (mkGame (mkSnake [(1, 15); (0, 15); (-1, 15)] LEFT false)
                       (mkFood (7, 7)) 30 30 true true, zero_rng)) /\
  exists fuel g' r', update fuel zero_rng scenario = Returns (tt, (g', r')).
Proof.
  split.
  - destruct (proj1 update_running_tick 0%nat zero_rng at_wall)
      as [s1 [c [h [Hm [Hc [_ [Hcoll _]]]]]]]; [reflexivity | discriminate |].
    vm_compute in Hm. injection Hm as <-.
    vm_compute in Hc. injection Hc as <-.
    rewrite (Hcoll eq_refl). reflexivity.
  - apply (proj2 (proj2 update_running_tick) zero_rng).
    exists 0%nat. reflexivity.
Defined.

(** C1, as stated, fails on the scenario, whose snake is the one [reset]
    leaves: the tick that eats the food
    leaves the body [(19,15),(20,15),(21,15)], of length 3, with growth
    pending for the next move; no random source makes it return the body
    [(18,15),(19,15),(20,15),(21,15)]. And a tick that ends the run returns
    the same value, [None], as one that does not. *)
Lemma update_scenario_counterexample :
  snake scenario = Snake_init /\
  (exists g' r',
     update 1 zero_rng scenario = Returns (tt, (g', r')) /\
     body (snake g') = [(19, 15); (20, 15); (21, 15)] /\
     length (body (snake g')) = 3%nat /\
     grow_pending (snake g') = true /\
     game_over g' = false) /\
  ~ (exists fuel r g' r',
       update fuel r scenario = Returns (tt, (g', r')) /\
       body (snake g') = [(18, 15); (19, 15); (20, 15); (21, 15)]) /\
  (exists g' r',
     update 1 zero_rng at_wall = Returns (tt, (g', r')) /\ game_over g' = true).
Proof.
  split; [reflexivity|]. split; [|split].
  - do 2 eexists. split; [reflexivity|]. repeat split.
  - intros [fuel [r [g' [r' [H Hb]]]]].
    destruct (update_eat_inv fuel r scenario
                (mkSnake [(19, 15); (20, 15); (21, 15)] RIGHT false) (21, 15) g' r'
                eq_refl eq_refl eq_refl eq_refl eq_refl H)
      as [k [_ [_ [-> _]]]].
    discriminate Hb.
  - do 2 eexists. split; reflexivity.
Qed.

Lemma update_game_over (fuel : nat) (r : Rng) (g : Game) :
  game_over g = true -> update fuel r g = Returns (tt, (g, r)).
Proof. intros H. unfold update. rewrite H. reflexivity. Qed.

Lemma updates_game_over (n fuel : nat) (r : Rng) (g : Game) :
  game_over g = true -> updates n fuel r g = Returns (g, r).
Proof.
  intros H. induction n as [|n IH]; [reflexivity|].
  simpl. rewrite (update_game_over fuel r g H). simpl. exact IH.
Qed.

(** C9. Once the game is over, [update] returns the game it was given,
    every field as it was, and leaves the random source alone; so does any
    number of successive calls. Only [reset_game] writes [game_over]
    back to false. *)
Theorem update_game_over_noop (g : Game) :
  game_over g = true ->
  forall (n fuel : nat) (r : Rng),
    update fuel r g = Returns (tt, (g, r)) /\
    updates n fuel r g = Returns (g, r).
Proof.
  intros H n fuel r. split.
  - apply update_game_over. exact H.
  - apply updates_game_over. exact H.
Qed.

Lemma update_game_over_noop_witness :
  update 0 zero_rng ended = Returns (tt, (ended, zero_rng)) /\
  updates 7 0 zero_rng ended = Returns (ended, zero_rng).
Proof.
  apply (update_game_over_noop ended). reflexivity.
Defined.

Section ResetGame.

Variables (r : Rng) (g : Game).

(** With fuel for more than [k] iterations, [reset_game] returns when the
    [k]-th sample is the first one off the fresh snake. *)
Lemma reset_game_returns (k fuel : nat) :
  first_accepted (Some (body (reset (snake g)))) r k -> (k < fuel)%nat ->
  reset_game fuel r g =
  Returns (tt, (mkGame (reset (snake g)) (mkFood (sample k r)) 0
                       (high_score g) (running g) false,
                after (S k) r)).
Proof.
  intros Hk Hfuel. unfold reset_game.
  change (body (snake (set_snake g (reset (snake g)))))
    with (body (reset (snake g))).
  rewrite (spawn_first_accepted _ _ k r fuel Hk Hfuel). reflexivity.
Qed.

Lemma reset_game_inv (fuel : nat) (g' : Game) (r' : Rng) :
  reset_game fuel r g = Returns (tt, (g', r')) ->
  exists k, (k < fuel)%nat /\
            first_accepted (Some (body (reset (snake g)))) r k /\
            g' = mkGame (reset (snake g)) (mkFood (sample k r)) 0
                        (high_score g) (running g) false /\
            r' = after (S k) r.
Proof.
  unfold reset_game. intros H.
  destruct (spawn fuel r (food (set_snake g (reset (snake g))))
              (Some (body (snake (set_snake g (reset (snake g)))))))
    as [[f r0]| |] eqn:S; simpl in H; try discriminate.
  destruct (spawn_returns_inv _ _ _ _ _ _ S) as [k [Hk [Hf [-> ->]]]].
  exists k. inversion H; subst. repeat split; try assumption; apply Hf.
Qed.

Lemma reset_game_terminates :
  draws_accepted (Some (body (reset (snake g)))) r ->
  exists fuel g' r', reset_game fuel r g = Returns (tt, (g', r')).
Proof.
  intros Hd. destruct (draws_accepted_first _ r Hd) as [k Hk].
  exists (S k). do 2 eexists. apply (reset_game_returns k (S k) Hk). lia.
Qed.

End ResetGame.

(** A tick that does not end the run leaves [high_score] as it was. *)
Lemma update_keeps_high_score (fuel : nat) (r : Rng) (g g' : Game) (r' : Rng) :
  ~ run_ends g ->
  update fuel r g = Returns (tt, (g', r')) ->
  high_score g' = high_score g.
Proof.
  intros Hn H. destruct (game_over g) eqn:G.
  - rewrite (update_game_over fuel r g G) in H. inversion H. reflexivity.
  - destruct (move (snake g)) as [s1| |] eqn:M;
      try (unfold update in H; rewrite G, M in H; discriminate).
    destruct (move_then_check _ _ M) as [h [c [Hh Hc]]].
    destruct c.
    + exfalso. apply Hn. split; [exact G|]. exists s1. split; [exact M | exact Hc].
    + destruct (cell_eqb h (position (food g))) eqn:E.
      * apply cell_eqb_eq in E.
        destruct (update_eat_inv fuel r g s1 h g' r' G M Hc Hh E H)
          as [k [_ [_ [-> _]]]].
        reflexivity.
      * assert (Hne : h <> position (food g)).
        { intros Heq. apply cell_eqb_eq in Heq. congruence. }
        rewrite (update_plain fuel r g s1 G M h Hc Hh Hne) in H.
        inversion H. reflexivity.
Qed.

Lemma handle_event_keeps_high_score
      (fuel : nat) (r : Rng) (g : Game) (event : Event) (g' : Game) (r' : Rng) :
  handle_event fuel r g event = Returns (g', r') ->
  high_score g' = high_score g.
Proof.
  destruct event as [|key|]; simpl; intros H;
    try (inversion H; reflexivity).
  destruct (game_over g); destruct key; simpl in H;
    try (inversion H; reflexivity);
    (destruct (reset_game fuel r g) as [[[] [g0 r0]]| |] eqn:R;
     simpl in H; [|discriminate|discriminate]);
    inversion H; subst;
    destruct (reset_game_inv r g fuel g' r' R) as [k [_ [_ [-> _]]]];
    reflexivity.
Qed.

Lemma handle_events_keeps_high_score (fuel : nat) (events : list Event) :
  forall (r : Rng) (g g' : Game) (r' : Rng),
    handle_events fuel r g events = Returns (tt, (g', r')) ->
    high_score g' = high_score g.
Proof.
  induction events as [|event events IH]; intros r g g' r' H; simpl in H.
  - inversion H. reflexivity.
  - destruct (handle_event fuel r g event) as [[g1 r1]| |] eqn:E;
      simpl in H; try discriminate.
    rewrite (IH _ _ _ _ H).
    apply (handle_event_keeps_high_score _ _ _ _ _ _ E).
Qed.

(** C7. The tick on which the run ends returns with [game_over] set and
    [high_score] the maximum of [high_score] and [score]; every other tick
    that returns leaves [high_score] as it was; [reset_game], which
    returns once the random source draws a cell off the fresh snake,
    leaves [high_score] as it was and sets [score] to 0; and handling
    events (turns, quitting, restarting) leaves [high_score] as it was. *)
Theorem high_score_frame :
  (forall fuel r g,
     run_ends g ->
     exists g', update fuel r g = Returns (tt, (g', r)) /\
                game_over g' = true /\
                score g' = score g /\
                high_score g' = Z.max (high_score g) (score g)) /\
  (forall fuel r g g' r',
     ~ run_ends g ->
     update fuel r g = Returns (tt, (g', r')) ->
     high_score g' = high_score g) /\
  (forall r g,
     (draws_accepted (Some (body (reset (snake g)))) r ->
      exists fuel g' r', reset_game fuel r g = Returns (tt, (g', r'))) /\
     (forall fuel g' r',
        reset_game fuel r g = Returns (tt, (g', r')) ->
        high_score g' = high_score g /\ score g' = 0)) /\
  (forall fuel r g events g' r',
     handle_events fuel r g events = Returns (tt, (g', r')) ->
     high_score g' = high_score g).
Proof.
  split; [|split; [|split]].
  - intros fuel r g [Hrun [s1 [Hmove Hc]]].
    eexists. split; [apply (update_collision fuel r g s1 Hrun Hmove Hc)|].
    repeat split.
  - intros fuel r g g' r'. apply update_keeps_high_score.
  - intros r g. split; [apply reset_game_terminates|].
    intros fuel g' r' H.
    destruct (reset_game_inv r g fuel g' r' H) as [k [_ [_ [-> _]]]].
    split; reflexivity.
  - intros fuel r g events g' r'. apply handle_events_keeps_high_score.
Qed.

Lemma high_score_frame_witness :
  exists g', update 0 zero_rng at_wall = Returns (tt, (g', zero_rng)) /\
             game_over g' = true /\
             score g' = 30 /\
             high_score g' = Z.max 20 30.
Proof.
  apply (proj1 high_score_frame 0%nat zero_rng at_wall).
  split; [reflexivity|]. eexists. split; reflexivity.
Defined.

(** C8. [reset_game] returns once the random source draws a cell off the
    fresh snake, and the game it returns has a body of
    [INITIAL_SNAKE_LENGTH] = 3 cells, laid out tail first as consecutive
    cells of the middle row that end at the centre cell
    [(GRID_WIDTH // 2, GRID_HEIGHT // 2)], which is therefore the head;
    the direction is RIGHT, no growth is pending, the score is 0 and the
    game is running. *)
Theorem reset_game_state (r : Rng) (g : Game) :
  (draws_accepted (Some (body (reset (snake g)))) r ->
   exists fuel g' r', reset_game fuel r g = Returns (tt, (g', r'))) /\
  (forall fuel g' r',
     reset_game fuel r g = Returns (tt, (g', r')) ->
     length (body (snake g')) = Z.to_nat INITIAL_SNAKE_LENGTH /\
     body (snake g') =
       map (fun i => (GRID_WIDTH / 2 - (INITIAL_SNAKE_LENGTH - 1) + Z.of_nat i,
                      GRID_HEIGHT / 2))
           (seq 0 (Z.to_nat INITIAL_SNAKE_LENGTH)) /\
     body (snake g') = [(18, 15); (19, 15); (20, 15)] /\
     get_head (snake g') = Returns (GRID_WIDTH / 2, GRID_HEIGHT / 2) /\
     direction (snake g') = RIGHT /\
     grow_pending (snake g') = false /\
     score g' = 0 /\
     game_over g' = false).
Proof.
  split; [apply reset_game_terminates|].
  intros fuel g' r' H.
  destruct (reset_game_inv r g fuel g' r' H) as [k [_ [_ [-> _]]]].
  rewrite reset_eq. repeat split.
Qed.

Lemma reset_game_state_witness :
  exists fuel g' r', reset_game fuel zero_rng ended = Returns (tt, (g', r')).
Proof.
  apply (proj1 (reset_game_state zero_rng ended)).
  exists 0%nat. reflexivity.
Defined.

(** The food after a tick that returns is the food before it, or a cell
    the respawn sampled. *)
Lemma update_food (fuel : nat) (r : Rng) (g g' : Game) (r' : Rng) :
  update fuel r g = Returns (tt, (g', r')) ->
  food g' = food g \/ exists k, food g' = mkFood (sample k r).
Proof.
  intros H. destruct (game_over g) eqn:G.
  - rewrite (update_game_over fuel r g G) in H. inversion H. left. reflexivity.
  - destruct (move (snake g)) as [s1| |] eqn:M;
      try (unfold update in H; rewrite G, M in H; discriminate).
    destruct (move_then_check _ _ M) as [h [c [Hh Hc]]].
    destruct c.
    + rewrite (update_collision fuel r g s1 G M Hc) in H.
      inversion H. left. reflexivity.
    + destruct (cell_eqb h (position (food g))) eqn:E.
      * apply cell_eqb_eq in E.
        destruct (update_eat_inv fuel r g s1 h g' r' G M Hc Hh E H)
          as [k [_ [_ [-> _]]]].
        right. exists k. reflexivity.
      * assert (Hne : h <> position (food g)).
        { intros Heq. apply cell_eqb_eq in Heq. congruence. }
        rewrite (update_plain fuel r g s1 G M h Hc Hh Hne) in H.
        inversion H. left. reflexivity.
Qed.

(** C10. Whenever [spawn] returns, the position it leaves lies within the
    grid. [Food()] returns (its loop ends at the first iteration) with a
    position within the grid, having started from [(0, 0)], which lies
    within the grid as well. Hence the food of a game is within the grid
    when the game is built, after [reset_game], and after every tick of a
    game whose food was within the grid. *)
Theorem spawn_position_in_grid :
  (forall fuel g f sb f' g',
     spawn fuel g f sb = Returns (f', g') -> in_grid (position f')) /\
  (forall fuel g, exists f' g',
     Food_init (S fuel) g = Returns (f', g') /\ in_grid (position f')) /\
  in_grid (position (mkFood (0, 0))) /\
  (forall fuel r g r',
     Game_init fuel r = Returns (g, r') -> in_grid (position (food g))) /\
  (forall fuel r g g' r',
     reset_game fuel r g = Returns (tt, (g', r')) -> in_grid (position (food g'))) /\
  (forall fuel r g g' r',
     in_grid (position (food g)) ->
     update fuel r g = Returns (tt, (g', r')) -> in_grid (position (food g'))).
Proof.
  assert (Hspawn : forall fuel g f sb f' g',
             spawn fuel g f sb = Returns (f', g') -> in_grid (position f')).
  { intros fuel g f sb f' g' H.
    destruct (spawn_returns_inv f sb fuel g f' g' H) as [k [_ [_ [-> _]]]].
    apply sample_in_grid. }
  split; [exact Hspawn|]. split; [|split; [|split; [|split]]].
  - intros fuel g. exists (mkFood (sample 0 g)), (after 1 g).
    split; [reflexivity | apply sample_in_grid].
  - unfold in_grid. rewrite GRID_WIDTH_eq, GRID_HEIGHT_eq. simpl. lia.
  - intros fuel r g r' H. unfold Game_init, Food_init in H.
    destruct (spawn fuel r (mkFood (0, 0)) None) as [[f r0]| |] eqn:S;
      simpl in H; try discriminate.
    inversion H; subst. simpl. apply (Hspawn _ _ _ _ _ _ S).
  - intros fuel r g g' r' H.
    destruct (reset_game_inv r g fuel g' r' H) as [k [_ [_ [-> _]]]].
    apply sample_in_grid.
  - intros fuel r g g' r' Hin H.
    destruct (update_food fuel r g g' r' H) as [->|[k ->]];
      [exact Hin | apply sample_in_grid].
Qed.

Lemma spawn_position_in_grid_witness :
  in_grid (position (mkFood (0, 0))) /\
  in_grid (position (food ended)).
Proof.
  split.
  - apply (proj1 spawn_position_in_grid 1%nat zero_rng (mkFood (21, 15))
             (Some [(19, 15); (20, 15); (21, 15)]) (mkFood (0, 0))
             (after 1 zero_rng)).
    reflexivity.
  - apply (proj2 (proj2 (proj2 (proj2 (proj2 spawn_position_in_grid))))
             0%nat zero_rng ended ended zero_rng).
    + unfold in_grid. rewrite GRID_WIDTH_eq, GRID_HEIGHT_eq. simpl. lia.
    + reflexivity.
Defined.

(** * Further properties *)

(** ** Turning *)

Lemma value_injective (a b : Direction) : value a = value b -> a = b.
Proof. destruct a, b; simpl; intros H; try reflexivity; discriminate. Qed.

Lemma value_negated (a h : Direction) :
  value a = (- fst (value h), - snd (value h)) <-> a = opposite h.
Proof.
  split.
  - destruct a, h; simpl; intros H; try reflexivity; discriminate.
  - intros ->. apply opposite_value.
Qed.

Lemma change_direction_cases (s : Snake) (d : Direction) :
  (d = opposite (direction s) /\ change_direction s d = s) \/
  (d <> opposite (direction s) /\
   change_direction s d = mkSnake (body s) d (grow_pending s)).
Proof.
  unfold change_direction. rewrite opposite_table. simpl.
  destruct (Direction_eqb d (opposite (direction s))) eqn:E; simpl.
  - left. apply Direction_eqb_eq in E. split; [exact E | reflexivity].
  - right. split; [|reflexivity].
    intros H. apply Direction_eqb_eq in H. congruence.
Qed.

Lemma opposite_not_self (h : Direction) : opposite h <> h.
Proof. destruct h; discriminate. Qed.

Lemma change_direction_not_reverse (s : Snake) (d : Direction) :
  direction (change_direction s d) <> opposite (direction s).
Proof.
  destruct (change_direction_cases s d) as [[_ ->]|[N ->]]; simpl.
  - intros H. exact (opposite_not_self _ (eq_sym H)).
  - exact N.
Qed.

(** X1. A turn takes effect exactly when the unit vector asked for is not
    the negation of the current one; whatever is asked, the direction after
    the call is never the reverse of the direction before it; and asking
    twice for the same direction is the same as asking once. *)
Theorem change_direction_guard (s : Snake) (d : Direction) :
  (direction (change_direction s d) = d <->
   value d <> (- fst (value (direction s)), - snd (value (direction s)))) /\
  direction (change_direction s d) <> opposite (direction s) /\
  change_direction (change_direction s d) d = change_direction s d.
Proof.
  destruct (change_direction_cases s d) as [[E ->]|[N ->]]; simpl.
  - split; [|split].
    + rewrite value_negated. split; intros H.
      * exfalso. rewrite E in H. exact (opposite_not_self _ (eq_sym H)).
      * contradiction.
    + intros H. exact (opposite_not_self _ (eq_sym H)).
    + destruct (change_direction_cases s d) as [[_ ->]|[N _]];
        [reflexivity | contradiction].
  - split; [|split].
    + rewrite value_negated. split; intros _; [exact N | reflexivity].
    + exact N.
    + destruct (change_direction_cases (mkSnake (body s) d (grow_pending s)) d)
        as [[_ ->]|[_ ->]]; reflexivity.
Qed.

Lemma deque_last_two {A : Type} (b : list A) (x y : A) :
  deque_last (b ++ [x; y]) = Returns y.
Proof.
  change (b ++ [x; y]) with (b ++ [x] ++ [y]). rewrite app_assoc.
  apply deque_last_app.
Qed.

Lemma snoc_two_inj {A : Type} (b b' : list A) (x y x' y' : A) :
  b ++ [x; y] = b' ++ [x'; y'] -> b = b' /\ x = x' /\ y = y'.
Proof.
  change (b ++ [x; y]) with (b ++ [x] ++ [y]).
  change (b' ++ [x'; y']) with (b' ++ [x'] ++ [y']).
  rewrite !app_assoc. intros H.
  apply app_inj_tail in H. destruct H as [H ->].
  apply app_inj_tail in H. destruct H as [-> ->]. repeat split.
Qed.

(** Every move leaves the head one unit vector after the cell before it. *)
Lemma move_aligned (s s' : Snake) : move s = Returns s' -> aligned s'.
Proof.
  intros Hmove.
  assert (Hne : body s <> []).
  { intros E. unfold move, get_head in Hmove. rewrite E in Hmove. discriminate. }
  destruct (get_head_returns s Hne) as [h [Hh Eb]].
  rewrite (move_unfold s h Hh) in Hmove. injection Hmove as <-.
  intros b neck head. simpl. intros E.
  assert (Hp : exists p, (if grow_pending s
                          then body s ++ [(fst h + fst (value (direction s)),
                                           snd h + snd (value (direction s)))]
                          else tl (body s ++ [(fst h + fst (value (direction s)),
                                               snd h + snd (value (direction s)))]))
                         = p ++ [h; (fst h + fst (value (direction s)),
                                     snd h + snd (value (direction s)))]
                         \/ length (if grow_pending s
                                    then body s ++ [(fst h + fst (value (direction s)),
                                                     snd h + snd (value (direction s)))]
                                    else tl (body s ++ [(fst h + fst (value (direction s)),
                                                         snd h + snd (value (direction s)))]))
                            = 1%nat).
  { rewrite Eb. destruct (grow_pending s).
    - exists (removelast (body s)). left. rewrite <- app_assoc. reflexivity.
    - destruct (removelast (body s)) as [|c p].
      + exists []. right. reflexivity.
      + exists p. left. simpl. rewrite <- app_assoc. reflexivity. }
  destruct Hp as [p [Hp|Hp]].
  - rewrite Hp in E. apply snoc_two_inj in E. destruct E as [_ [<- <-]].
    reflexivity.
  - rewrite E, length_app in Hp. simpl in Hp. lia.
Qed.

(** X2. A snake whose head is one unit vector after its neck (as every
    move and [reset] leave it) does not step back onto its neck when at
    most one turn is asked before it moves: the move returns, the new head
    is not the neck, and the head is again one unit vector after the cell
    before it. *)
Theorem turn_then_move_off_neck
        (s : Snake) (d : Direction) (b : list cell) (neck head : cell) :
  aligned s ->
  body s = b ++ [neck; head] ->
  exists s',
    move (change_direction s d) = Returns s' /\
    get_head s' <> Returns neck /\
    aligned s'.
Proof.
  intros Hal Eb. destruct neck as [nx ny], head as [hx hy].
  pose proof (Hal b _ _ Eb) as Hhead.
  set (s1 := change_direction s d).
  assert (Hb1 : body s1 = b ++ [(nx, ny); (hx, hy)]).
  { unfold s1. destruct (change_direction_cases s d) as [[_ ->]|[_ ->]];
      simpl; exact Eb. }
  assert (Hh1 : get_head s1 = Returns (hx, hy)).
  { unfold get_head. rewrite Hb1. apply deque_last_two. }
  assert (Hd1 : direction s1 <> opposite (direction s)).
  { apply change_direction_not_reverse. }
  pose proof (move_unfold s1 (hx, hy) Hh1) as Hmove.
  eexists. split; [exact Hmove|]. split; [|exact (move_aligned _ _ Hmove)].
  unfold get_head. simpl.
  assert (Hlast : forall l : list cell,
             l <> [] ->
             deque_last (if grow_pending s1
                         then l ++ [(hx + fst (value (direction s1)),
                                     hy + snd (value (direction s1)))]
                         else tl (l ++ [(hx + fst (value (direction s1)),
                                         hy + snd (value (direction s1)))]))
             = Returns (hx + fst (value (direction s1)),
                        hy + snd (value (direction s1)))).
  { intros l Hl. destruct (grow_pending s1).
    - apply deque_last_app.
    - rewrite tl_app_nonempty by exact Hl. apply deque_last_app. }
  rewrite Hlast by (rewrite Hb1; destruct b; discriminate).
  intros H. injection H as Hx Hy.
  apply Hd1. apply value_negated.
  injection Hhead as Hhx Hhy. simpl in Hhx, Hhy.
  destruct (value (direction s1)) as [ax ay], (value (direction s)) as [dx dy].
  simpl in *. f_equal; lia.
Qed.

Lemma turn_then_move_off_neck_witness :
  exists s',
    move (change_direction (mkSnake [(18, 15); (19, 15); (20, 15)] RIGHT false) LEFT)
    = Returns s' /\
    get_head s' <> Returns (19, 15) /\
    aligned s'.
Proof.
  apply (turn_then_move_off_neck
           (mkSnake [(18, 15); (19, 15); (20, 15)] RIGHT false) LEFT
           [(18, 15)] (19, 15) (20, 15)).
  - intros b neck head E. simpl in E.
    apply (snoc_two_inj [(18, 15)] b) in E. destruct E as [_ [<- <-]]. reflexivity.
  - reflexivity.
Defined.

Lemma handle_event_arrow (fuel : nat) (r : Rng) (g : Game) (d : Direction) :
  game_over g = false ->
  handle_event fuel r g (KEYDOWN (arrow d))
  = Returns (set_snake g (change_direction (snake g) d), r) /\
  handle_event fuel r g (KEYDOWN (letter d))
  = Returns (set_snake g (change_direction (snake g) d), r).
Proof. intros H. destruct d; simpl; rewrite H; split; reflexivity. Qed.

(** A head that is on a cell of the rest of the body is a collision. *)
Lemma check_collision_on_body (s : Snake) (p : list cell) (h : cell) :
  body s = p ++ [h] -> In h p -> check_collision s = Returns true.
Proof.
  intros Eb Hin. unfold check_collision, get_head. rewrite Eb, deque_last_app.
  destruct h as [hx hy]. simpl.
  destruct ((hx <? 0) || (hx >=? GRID_WIDTH) || (hy <? 0) || (hy >=? GRID_HEIGHT));
    [reflexivity|].
  rewrite removelast_last.
  apply py_in_In in Hin. rewrite Hin. reflexivity.
Qed.

(** X3. The guard of [change_direction] looks at the current direction
    only, so two turns in the events of one iteration reverse the snake: in
    a running game whose snake has three cells or more and its head one
    unit vector after its neck, a turn to the side followed by a turn to
    the reverse of the original direction are both accepted, the next
    [update] puts the head on the neck, and the game is over. *)
Theorem two_turns_in_one_frame_reverse
        (fuel : nat) (r : Rng) (g : Game) (d : Direction)
        (b : list cell) (c neck head : cell) :
  game_over g = false ->
  aligned (snake g) ->
  body (snake g) = b ++ [c; neck; head] ->
  d <> direction (snake g) ->
  d <> opposite (direction (snake g)) ->
  exists s2 s',
    handle_events fuel r g
      [KEYDOWN (arrow d); KEYDOWN (arrow (opposite (direction (snake g))))]
    = Returns (tt, (set_snake g s2, r)) /\
    direction s2 = opposite (direction (snake g)) /\
    move s2 = Returns s' /\
    get_head s' = Returns neck /\
    update fuel r (set_snake g s2)
    = Returns (tt, (mkGame s' (food g) (score g)
                           (Z.max (high_score g) (score g)) (running g) true, r)).
Proof.
  intros Hrun Hal Eb Hside Hnot.
  set (s := snake g) in *. set (o := opposite (direction s)).
  assert (E1 : change_direction s d = mkSnake (body s) d (grow_pending s)).
  { destruct (change_direction_cases s d) as [[E _]|[_ E]];
      [contradiction | exact E]. }
  assert (E2 : change_direction (mkSnake (body s) d (grow_pending s)) o
               = mkSnake (body s) o (grow_pending s)).
  { destruct (change_direction_cases (mkSnake (body s) d (grow_pending s)) o)
      as [[E _]|[_ E]]; [|exact E].
    exfalso. simpl in E. apply Hside. unfold o in E.
    rewrite <- (opposite_involutive d), <- E. apply opposite_involutive. }
  set (s2 := mkSnake (body s) o (grow_pending s)).
  assert (Hh2 : get_head s2 = Returns head).
  { unfold get_head, s2. simpl. rewrite Eb.
    change (b ++ [c; neck; head]) with (b ++ [c] ++ [neck; head]).
    rewrite app_assoc. apply deque_last_two. }
  assert (Hneck : (fst head + fst (value o), snd head + snd (value o)) = neck).
  { assert (Hh : head = (fst neck + fst (value (direction s)),
                         snd neck + snd (value (direction s)))).
    { apply (Hal (b ++ [c])). rewrite Eb, <- app_assoc. reflexivity. }
    unfold o. rewrite opposite_value. rewrite Hh. destruct neck as [nx ny].
    simpl. f_equal; lia. }
  pose proof (move_unfold s2 head Hh2) as Hmove.
  change (direction s2) with o in Hmove.
  change (grow_pending s2) with (grow_pending s) in Hmove.
  change (body s2) with (body s) in Hmove.
  rewrite Hneck in Hmove.
  assert (Hb' : exists p, In neck p /\
                  (if grow_pending s then body s ++ [neck]
                   else tl (body s ++ [neck])) = p ++ [neck]).
  { rewrite Eb. destruct (grow_pending s).
    - exists (b ++ [c; neck; head]). split; [|reflexivity].
      apply in_or_app. right. simpl. auto.
    - exists (tl (b ++ [c; neck; head])). split.
      + destruct b; simpl; [auto|]. apply in_or_app. right. simpl. auto.
      + apply tl_app_nonempty. destruct b; discriminate. }
  destruct Hb' as [p [Hin Hp]].
  exists s2. eexists.
  split; [|split; [reflexivity|split; [exact Hmove|split]]].
  - cbn [handle_events].
    rewrite (proj1 (handle_event_arrow fuel r g d Hrun)). cbn [bind].
    fold s. rewrite E1.
    rewrite (proj1 (handle_event_arrow fuel r
                      (set_snake g (mkSnake (body s) d (grow_pending s))) o Hrun)).
    cbn [bind].
    change (snake (set_snake g (mkSnake (body s) d (grow_pending s))))
      with (mkSnake (body s) d (grow_pending s)).
    rewrite E2. reflexivity.
  - unfold get_head. cbn [body].
    rewrite <- (deque_last_app p neck). f_equal. exact Hp.
  - apply (update_collision fuel r (set_snake g s2) _ Hrun Hmove).
    apply (check_collision_on_body _ p neck); [exact Hp | exact Hin].
Qed.

Lemma two_turns_in_one_frame_reverse_witness :
  exists s2 s',
    handle_events 0 zero_rng scenario [KEYDOWN (arrow UP); KEYDOWN (arrow LEFT)]
    = Returns (tt, (set_snake scenario s2, zero_rng)) /\
    direction s2 = LEFT /\
    move s2 = Returns s' /\
    get_head s' = Returns (19, 15) /\
    update 0 zero_rng (set_snake scenario s2)
    = Returns (tt, (mkGame s' (mkFood (21, 15)) 0 (Z.max 0 0) true true, zero_rng)).
Proof.
  apply (two_turns_in_one_frame_reverse 0 zero_rng scenario UP
           [] (18, 15) (19, 15) (20, 15)).
  - reflexivity.
  - intros b neck head E. simpl in E.
    apply (snoc_two_inj [(18, 15)] b) in E. destruct E as [_ [<- <-]]. reflexivity.
  - reflexivity.
  - simpl. discriminate.
  - simpl. discriminate.
Defined.

(** ** What one call can do *)

(** The snake a move returns: the new head after the old body, which has
    lost its first cell unless growth was pending. *)
Lemma move_result (s s1 : Snake) :
  move s = Returns s1 ->
  exists h q,
    get_head s = Returns h /\
    body s1 = q ++ [(fst h + fst (value (direction s)),
                     snd h + snd (value (direction s)))] /\
    (grow_pending s = true /\ q = body s \/
     grow_pending s = false /\ q = tl (body s)) /\
    direction s1 = direction s /\
    grow_pending s1 = false.
Proof.
  intros Hmove.
  assert (Hne : body s <> []).
  { intros E. unfold move, get_head in Hmove. rewrite E in Hmove. discriminate. }
  destruct (get_head_returns s Hne) as [h [Hh _]].
  rewrite (move_unfold s h Hh) in Hmove. injection Hmove as <-. simpl.
  exists h. destruct (grow_pending s).
  - exists (body s). repeat split; auto.
  - exists (tl (body s)). repeat split; auto.
    apply tl_app_nonempty. exact Hne.
Qed.

(** When no collision is found, the head is within the grid and on no
    other cell of the body. *)
Lemma check_collision_false (s : Snake) (q : list cell) (h : cell) :
  body s = q ++ [h] ->
  check_collision s = Returns false ->
  in_grid h /\ ~ In h q.
Proof.
  intros Eb Hc. unfold check_collision, get_head in Hc.
  rewrite Eb, deque_last_app in Hc. destruct h as [hx hy]. simpl in Hc.
  destruct ((hx <? 0) || (hx >=? GRID_WIDTH) || (hy <? 0) || (hy >=? GRID_HEIGHT))
    eqn:W; [discriminate|].
  rewrite removelast_last in Hc.
  destruct (py_in (hx, hy) q) eqn:P; [discriminate|].
  split; [|apply py_in_false; exact P].
  rewrite !orb_false_iff in W. destruct W as [[[W1 W2] W3] W4].
  rewrite Z.ltb_ge in W1, W3. rewrite Z.geb_leb, Z.leb_gt in W2, W4.
  unfold in_grid. simpl. lia.
Qed.

(** The ways [update] returns. *)
Lemma update_cases (fuel : nat) (r : Rng) (g g' : Game) (r' : Rng) :
  update fuel r g = Returns (tt, (g', r')) ->
  (game_over g = true /\ g' = g /\ r' = r) \/
  (game_over g = false /\
   exists s1,
     move (snake g) = Returns s1 /\
     ((check_collision s1 = Returns true /\
       g' = mkGame s1 (food g) (score g) (Z.max (high_score g) (score g))
                   (running g) true /\
       r' = r) \/
      (check_collision s1 = Returns false /\
       (exists h, get_head s1 = Returns h /\ h <> position (food g)) /\
       g' = mkGame s1 (food g) (score g) (high_score g) (running g) false /\
       r' = r) \/
      (check_collision s1 = Returns false /\
       get_head s1 = Returns (position (food g)) /\
       exists k,
         first_accepted (Some (body s1)) r k /\
         g' = mkGame (grow s1) (mkFood (sample k r)) (score g + 10)
                     (high_score g) (running g) false /\
         r' = after (S k) r))).
Proof.
  intros H. destruct (game_over g) eqn:G.
  - left. rewrite (update_game_over fuel r g G) in H. inversion H. auto.
  - right. split; [reflexivity|].
    destruct (move (snake g)) as [s1| |] eqn:M;
      try (unfold update in H; rewrite G, M in H; discriminate).
    exists s1. split; [reflexivity|].
    destruct (move_then_check _ _ M) as [h [c [Hh Hc]]].
    destruct c.
    + left. rewrite (update_collision fuel r g s1 G M Hc) in H.
      inversion H. auto.
    + right. destruct (cell_eqb h (position (food g))) eqn:E.
      * right. apply cell_eqb_eq in E.
        destruct (update_eat_inv fuel r g s1 h g' r' G M Hc Hh E H)
          as [k [_ [Hk [-> ->]]]].
        split; [exact Hc|]. split; [rewrite <- E; exact Hh|].
        exists k. auto.
      * left.
        assert (Hne : h <> position (food g)).
        { intros Heq. apply cell_eqb_eq in Heq. congruence. }
        rewrite (update_plain fuel r g s1 G M h Hc Hh Hne) in H.
        inversion H. split; [exact Hc|]. split; [exists h; auto | auto].
Qed.

(** The ways the handling of one event returns. *)
Lemma handle_event_cases
      (fuel : nat) (r : Rng) (g : Game) (event : Event) (g' : Game) (r' : Rng) :
  handle_event fuel r g event = Returns (g', r') ->
  (quits event = false /\ g' = g /\ r' = r) \/
  (quits event = true /\ g' = set_running g false /\ r' = r) \/
  (game_over g = false /\ quits event = false /\
   exists d, g' = set_snake g (change_direction (snake g) d) /\ r' = r) \/
  (game_over g = true /\ restarts event = true /\
   exists k,
     first_accepted (Some (body (reset (snake g)))) r k /\
     g' = mkGame (reset (snake g)) (mkFood (sample k r)) 0
                 (high_score g) (running g) false /\
     r' = after (S k) r).
Proof.
  intros H. destruct event as [|key|]; simpl in H.
  - right. left. inversion H. auto.
  - destruct (game_over g) eqn:G.
    + destruct key; simpl in H;
        try (left; inversion H; auto; fail);
        try (right; left; inversion H; auto; fail);
        (right; right; right;
         destruct (reset_game fuel r g) as [[[] [g0 r0]]| |] eqn:R;
         simpl in H; [|discriminate|discriminate];
         inversion H; subst;
         destruct (reset_game_inv r g fuel g' r' R) as [k [_ [Hk [-> ->]]]];
         split; [reflexivity|]; split; [reflexivity|]; exists k; auto).
    + destruct key; simpl in H;
        try (left; inversion H; auto; fail);
        try (right; left; inversion H; auto; fail);
        (right; right; left; split; [reflexivity|]; split; [reflexivity|];
         inversion H; eexists; split; reflexivity).
  - left. inversion H. auto.
Qed.

Section Invariants.

(** [P] holds at the top of every iteration of the main loop as soon as
    [Game()] establishes it, the events keep [Q], which follows from it,
    and [update] brings [Q] back to [P]. *)
Variables P Q : Game -> Prop.

Hypothesis init_P :
  forall fuel r g r', Game_init fuel r = Returns (g, r') -> P g.
Hypothesis P_Q : forall g, P g -> Q g.
Hypothesis event_Q :
  forall fuel r g event g' r',
    Q g -> handle_event fuel r g event = Returns (g', r') -> Q g'.
Hypothesis update_P :
  forall fuel r g g' r',
    Q g -> update fuel r g = Returns (tt, (g', r')) -> P g'.

Lemma handle_events_keeps (fuel : nat) (events : list Event) :
  forall r g g' r',
    Q g -> handle_events fuel r g events = Returns (tt, (g', r')) -> Q g'.
Proof.
  induction events as [|event events IH]; intros r g g' r' HQ H; simpl in H.
  - inversion H; subst. exact HQ.
  - destruct (handle_event fuel r g event) as [[g1 r1]| |] eqn:E;
      simpl in H; try discriminate.
    apply (IH _ _ _ _ (event_Q _ _ _ _ _ _ HQ E) H).
Qed.

Lemma reachable_invariant (g : Game) : reachable g -> P g.
Proof.
  induction 1 as [fuel r g r' Hinit | g fuel r events g1 r1 g2 r2 _ IH He Hu].
  - apply (init_P _ _ _ _ Hinit).
  - apply (update_P _ _ _ _ _ (handle_events_keeps _ _ _ _ _ _ (P_Q _ IH) He) Hu).
Qed.

End Invariants.

Lemma Game_init_inv (fuel : nat) (r : Rng) (g : Game) (r' : Rng) :
  Game_init fuel r = Returns (g, r') ->
  exists f, g = mkGame Snake_init f 0 0 true false /\ in_grid (position f).
Proof.
  unfold Game_init, Food_init. intros H.
  destruct (spawn fuel r (mkFood (0, 0)) None) as [[f r0]| |] eqn:S;
    simpl in H; try discriminate.
  inversion H; subst. exists f. split; [reflexivity|].
  destruct (spawn_returns_inv _ _ _ _ _ _ S) as [k [_ [_ [-> _]]]].
  apply sample_in_grid.
Qed.

(** ** The program never raises *)

Lemma move_length (s s1 : Snake) :
  move s = Returns s1 ->
  Z.of_nat (length (body s1))
  = Z.of_nat (length (body s)) + (if grow_pending s then 1 else 0).
Proof.
  intros Hmove.
  destruct (move_result s s1 Hmove) as [h [q [Hh [Eb [Hq _]]]]].
  rewrite Eb, length_app, Nat2Z.inj_add. cbn [length]. unfold cell in *.
  destruct Hq as [[-> ->]|[-> ->]]; [lia|].
  unfold get_head in Hh. destruct (body s) as [|c l]; [discriminate|].
  cbn [tl length]. rewrite Nat2Z.inj_succ. lia.
Qed.

Lemma change_direction_body (s : Snake) (d : Direction) :
  body (change_direction s d) = body s /\
  grow_pending (change_direction s d) = grow_pending s.
Proof.
  destruct (change_direction_cases s d) as [[_ ->]|[_ ->]]; split; reflexivity.
Qed.

Lemma handle_event_keeps_length
      (fuel : nat) (r : Rng) (g : Game) (event : Event) (g' : Game) (r' : Rng) :
  (3 <= length (body (snake g)))%nat ->
  handle_event fuel r g event = Returns (g', r') ->
  (3 <= length (body (snake g')))%nat.
Proof.
  intros HP H.
  destruct (handle_event_cases _ _ _ _ _ _ H)
    as [[_ [-> _]]|[[_ [-> _]]|[[_ [_ [d [-> _]]]]|[_ [_ [k [_ [-> _]]]]]]]].
  - exact HP.
  - exact HP.
  - cbn [snake set_snake]. rewrite (proj1 (change_direction_body _ _)). exact HP.
  - cbn [snake]. rewrite reset_eq. simpl. lia.
Qed.

Lemma update_keeps_length (fuel : nat) (r : Rng) (g g' : Game) (r' : Rng) :
  (3 <= length (body (snake g)))%nat ->
  update fuel r g = Returns (tt, (g', r')) ->
  (3 <= length (body (snake g')))%nat.
Proof.
  intros HP H.
  destruct (update_cases _ _ _ _ _ H)
    as [[_ [-> _]]|[_ [s1 [M [[_ [-> _]]|[[_ [_ [-> _]]]|[_ [_ [k [_ [-> _]]]]]]]]]]];
    simpl; try exact HP;
    pose proof (move_length _ _ M); destruct (grow_pending (snake g)); lia.
Qed.

Lemma handle_events_never_raises (fuel : nat) (events : list Event) :
  forall r g e, handle_events fuel r g events <> Raises e.
Proof.
  induction events as [|event events IH]; intros r g e; simpl; [discriminate|].
  destruct (handle_event fuel r g event) as [[g1 r1]|e1|] eqn:E; simpl;
    [apply IH | | discriminate].
  exfalso. destruct event as [|key|]; simpl in E; try discriminate.
  destruct (game_over g); destruct key; simpl in E; try discriminate;
    unfold reset_game in E;
    (destruct (spawn fuel r (food (set_snake g (reset (snake g))))
                (Some (body (snake (set_snake g (reset (snake g)))))))
       as [[f0 r0]|e0|] eqn:S; simpl in E; try discriminate;
     exact (spawn_never_raises _ _ _ _ _ S)).
Qed.

Lemma update_never_raises (fuel : nat) (r : Rng) (g : Game) (e : exn) :
  body (snake g) <> [] -> update fuel r g <> Raises e.
Proof.
  intros Hne. destruct (game_over g) eqn:G.
  - rewrite (update_game_over fuel r g G). discriminate.
  - destruct (get_head_returns (snake g) Hne) as [h0 [Hh0 _]].
    pose proof (move_unfold (snake g) h0 Hh0) as M.
    destruct (move_then_check _ _ M) as [h [c [Hh Hc]]].
    destruct c.
    + rewrite (update_collision fuel r g _ G M Hc). discriminate.
    + destruct (cell_eqb h (position (food g))) eqn:E.
      * apply cell_eqb_eq in E.
        rewrite (update_eat fuel r g _ G M h Hc Hh E).
        match goal with
        | |- bind ?m _ <> _ => destruct m as [[f0 r0]|e0|] eqn:S
        end; simpl; try discriminate.
        exfalso. exact (spawn_never_raises _ _ _ _ _ S).
      * assert (Hfood : h <> position (food g)).
        { intros Heq. apply cell_eqb_eq in Heq. congruence. }
        rewrite (update_plain fuel r g _ G M h Hc Hh Hfood). discriminate.
Qed.

Lemma handle_events_keeps_length (fuel : nat) (events : list Event) :
  forall r g g' r',
    (3 <= length (body (snake g)))%nat ->
    handle_events fuel r g events = Returns (tt, (g', r')) ->
    (3 <= length (body (snake g')))%nat.
Proof.
  apply (handle_events_keeps (fun g => (3 <= length (body (snake g)))%nat)).
  intros fuel' r g event g' r'. apply handle_event_keeps_length.
Qed.

Lemma run_never_raises (fuel : nat) (frames : list (list Event)) :
  forall r g e,
    (3 <= length (body (snake g)))%nat -> run fuel r g frames <> Raises e.
Proof.
  induction frames as [|events frames IH]; intros r g e HP; simpl;
    destruct (running g); try discriminate.
  destruct (handle_events fuel r g events) as [[[] [g1 r1]]|e1|] eqn:He; simpl;
    [|exfalso; exact (handle_events_never_raises _ _ _ _ _ He)|discriminate].
  pose proof (handle_events_keeps_length _ _ _ _ _ _ HP He) as HP1.
  destruct (update fuel r1 g1) as [[[] [g2 r2]]|e2|] eqn:Hu; simpl;
    [|exfalso; revert Hu; apply update_never_raises;
      destruct (body (snake g1)); [simpl in HP1; lia | discriminate]
     |discriminate].
  apply IH. exact (update_keeps_length _ _ _ _ _ HP1 Hu).
Qed.

(** X4. The program never raises: whatever the random source and the
    events of each iteration, [main] returns or is still running, and so
    are [handle_events] on any game and [update] on any game the main loop
    reaches, whose snake always has three cells or more. *)
Theorem main_never_raises :
  (forall fuel r frames e, main fuel r frames <> Raises e) /\
  (forall fuel r g events e, handle_events fuel r g events <> Raises e) /\
  (forall g, reachable g ->
     (3 <= length (body (snake g)))%nat /\
     forall fuel r e, update fuel r g <> Raises e).
Proof.
  split; [|split].
  - intros fuel r frames e. unfold main.
    destruct (Game_init fuel r) as [[g r']|e0|] eqn:Hi; simpl.
    + apply run_never_raises.
      destruct (Game_init_inv _ _ _ _ Hi) as [f [-> _]]. simpl. lia.
    + exfalso. unfold Game_init, Food_init in Hi.
      destruct (spawn fuel r (mkFood (0, 0)) None) as [[f0 r0]|e1|] eqn:S;
        simpl in Hi; try discriminate.
      exact (spawn_never_raises _ _ _ _ _ S).
    + discriminate.
  - intros fuel r g events e. apply handle_events_never_raises.
  - intros g Hg.
    assert (HP : (3 <= length (body (snake g)))%nat).
    { apply (reachable_invariant
               (fun g => (3 <= length (body (snake g)))%nat)
               (fun g => (3 <= length (body (snake g)))%nat)); auto.
      - intros fuel r g0 r' Hi.
        destruct (Game_init_inv _ _ _ _ Hi) as [f [-> _]]. simpl. lia.
      - intros fuel r g0 event g' r'. apply handle_event_keeps_length.
      - intros fuel r g0 g' r'. apply update_keeps_length. }
    split; [exact HP|].
    intros fuel r e. apply update_never_raises.
    destruct (body (snake g)); [simpl in HP; lia | discriminate].
Qed.

(** ** What holds at the top of every iteration *)

(** X5. At the top of every iteration of the main loop the score counts
    the growth of the snake: it is ten times the number of cells beyond
    the initial three, the segment still pending included. *)
Theorem score_counts_growth (g : Game) :
  reachable g ->
  score g = 10 * (Z.of_nat (length (body (snake g)))
                  + (if grow_pending (snake g) then 1 else 0)
                  - INITIAL_SNAKE_LENGTH).
Proof.
  set (P := fun g : Game =>
              score g = 10 * (Z.of_nat (length (body (snake g)))
                              + (if grow_pending (snake g) then 1 else 0)
                              - INITIAL_SNAKE_LENGTH)).
  apply (reachable_invariant P P); unfold P; clear P; auto.
  - intros fuel r g0 r' Hi.
    destruct (Game_init_inv _ _ _ _ Hi) as [f [-> _]]. reflexivity.
  - intros fuel r g0 event g' r' HP H.
    destruct (handle_event_cases _ _ _ _ _ _ H)
      as [[_ [-> _]]|[[_ [-> _]]|[[_ [_ [d [-> _]]]]|[_ [_ [k [_ [-> _]]]]]]]].
    + exact HP.
    + exact HP.
    + cbn [snake set_snake score].
      destruct (change_direction_body (snake g0) d) as [-> ->]. exact HP.
    + reflexivity.
  - intros fuel r g0 g' r' HP H.
    destruct (update_cases _ _ _ _ _ H)
      as [[_ [-> _]]|[_ [s1 [M [[_ [-> _]]|[[_ [_ [-> _]]]|[_ [_ [k [_ [-> _]]]]]]]]]]];
      [exact HP| | |];
      pose proof (move_length _ _ M) as Hl;
      destruct (move_result _ _ M) as [_ [_ [_ [_ [_ [_ Hg]]]]]];
      cbn [snake score grow set_grow_pending body grow_pending];
      try rewrite Hg; unfold cell in *; lia.
Qed.

(** [Game()] builds the scenario when the first sample is [(21, 15)], and
    one iteration without events then leaves it fed. *)
Lemma scenario_reachable : reachable scenario.
Proof.
  apply (reachable_init 1%nat (cell_rng (21, 15)) scenario
           (after 1 (cell_rng (21, 15)))).
  reflexivity.
Qed.

Lemma fed_reachable : reachable fed.
Proof.
  apply (reachable_frame scenario 1%nat zero_rng [] scenario zero_rng
           fed (after 1 zero_rng) scenario_reachable); reflexivity.
Qed.

Lemma score_counts_growth_witness :
  score fed = 10 * (Z.of_nat (length (body (snake fed)))
                    + (if grow_pending (snake fed) then 1 else 0)
                    - INITIAL_SNAKE_LENGTH).
Proof.
  apply (score_counts_growth fed). exact fed_reachable.
Defined.

Lemma main_never_raises_witness :
  (3 <= length (body (snake fed)))%nat /\
  forall fuel r e, update fuel r fed <> Raises e.
Proof.
  apply (proj2 (proj2 main_never_raises) fed). exact fed_reachable.
Defined.

(** X6. At the top of every iteration the score and the high score are
    not negative, and on the game-over screen the score does not exceed
    the high score; a tick lowers neither of them. *)
Theorem high_score_dominates :
  (forall g, reachable g ->
     0 <= score g /\ 0 <= high_score g /\
     (game_over g = true -> score g <= high_score g)) /\
  (forall fuel r g g' r',
     update fuel r g = Returns (tt, (g', r')) ->
     score g <= score g' /\ high_score g <= high_score g').
Proof.
  split.
  - set (P := fun g : Game =>
                0 <= score g /\ 0 <= high_score g /\
                (game_over g = true -> score g <= high_score g)).
    apply (reachable_invariant P P); unfold P; clear P; auto.
    + intros fuel r g0 r' Hi.
      destruct (Game_init_inv _ _ _ _ Hi) as [f [-> _]]. simpl.
      split; [lia|]. split; [lia | discriminate].
    + intros fuel r g0 event g' r' HP H.
      destruct (handle_event_cases _ _ _ _ _ _ H)
        as [[_ [-> _]]|[[_ [-> _]]|[[_ [_ [d [-> _]]]]|[_ [_ [k [_ [-> _]]]]]]]];
        try exact HP.
      simpl. destruct HP as [_ [Hh _]].
      split; [lia|]. split; [exact Hh | discriminate].
    + intros fuel r g0 g' r' [Hs [Hh Hg]] H.
      destruct (update_cases _ _ _ _ _ H)
        as [[_ [-> _]]|[_ [s1 [M [[_ [-> _]]|[[_ [_ [-> _]]]|[_ [_ [k [_ [-> _]]]]]]]]]]];
        simpl; repeat split; auto; try lia; try discriminate.
  - intros fuel r g g' r' H.
    destruct (update_cases _ _ _ _ _ H)
      as [[_ [-> _]]|[_ [s1 [M [[_ [-> _]]|[[_ [_ [-> _]]]|[_ [_ [k [_ [-> _]]]]]]]]]]];
      simpl; lia.
Qed.

Lemma high_score_dominates_witness :
  0 <= score fed /\ 0 <= high_score fed /\
  (game_over fed = true -> score fed <= high_score fed).
Proof.
  apply (proj1 high_score_dominates fed). exact fed_reachable.
Defined.

Lemma aligned_reset (s : Snake) : aligned (reset s).
Proof.
  rewrite reset_eq. intros b neck head E. simpl in E.
  apply (snoc_two_inj [(18, 15)] b) in E. destruct E as [_ [<- <-]]. reflexivity.
Qed.

(** X7. At the top of every iteration the head of the snake is the cell
    before it plus the unit vector of the current direction. *)
Theorem reachable_aligned (g : Game) : reachable g -> aligned (snake g).
Proof.
  apply (reachable_invariant
           (fun g => aligned (snake g))
           (fun g => game_over g = true -> aligned (snake g))).
  - intros fuel r g0 r' Hi.
    destruct (Game_init_inv _ _ _ _ Hi) as [f [-> _]]. apply aligned_reset.
  - auto.
  - intros fuel r g0 event g' r' HQ H.
    destruct (handle_event_cases _ _ _ _ _ _ H)
      as [[_ [-> _]]|[[_ [-> _]]|[[G [_ [d [-> _]]]]|[_ [_ [k [_ [-> _]]]]]]]].
    + exact HQ.
    + exact HQ.
    + simpl. rewrite G. discriminate.
    + simpl. discriminate.
  - intros fuel r g0 g' r' HQ H.
    destruct (update_cases _ _ _ _ _ H)
      as [[G [-> _]]|[_ [s1 [M [[_ [-> _]]|[[_ [_ [-> _]]]|[_ [_ [k [_ [-> _]]]]]]]]]]].
    + exact (HQ G).
    + exact (move_aligned _ _ M).
    + exact (move_aligned _ _ M).
    + exact (move_aligned _ _ M).
Qed.

Lemma reachable_aligned_witness : aligned (snake fed).
Proof.
  apply (reachable_aligned fed). exact fed_reachable.
Defined.

Lemma In_tl {A : Type} (x : A) (l : list A) : In x (tl l) -> In x l.
Proof. destruct l; simpl; auto. Qed.

Lemma NoDup_tl {A : Type} (l : list A) : NoDup l -> NoDup (tl l).
Proof. destruct l; simpl; [auto | intros H; inversion H; assumption]. Qed.

(** A move that is not a collision keeps the cells of the body pairwise
    distinct and within the grid. *)
Lemma move_keeps_well_formed (s s1 : Snake) :
  NoDup (body s) ->
  Forall in_grid (body s) ->
  move s = Returns s1 ->
  check_collision s1 = Returns false ->
  NoDup (body s1) /\ Forall in_grid (body s1).
Proof.
  intros Hnd Hin M Hc.
  destruct (move_result _ _ M) as [h [q [_ [Eb [Hq _]]]]].
  destruct (check_collision_false _ _ _ Eb Hc) as [Hg Hnq].
  assert (Hq' : NoDup q /\ Forall in_grid q).
  { destruct Hq as [[_ ->]|[_ ->]]; [auto|].
    split; [apply NoDup_tl; exact Hnd|].
    apply Forall_forall. intros x Hx.
    apply (proj1 (Forall_forall _ _) Hin). apply In_tl. exact Hx. }
  rewrite Eb. split.
  - apply NoDup_snoc; [apply Hq' | exact Hnq].
  - apply Forall_app. split; [apply Hq' | constructor; [exact Hg | constructor]].
Qed.

Lemma reset_well_formed (s : Snake) :
  NoDup (body (reset s)) /\ Forall in_grid (body (reset s)).
Proof.
  rewrite reset_eq. cbn [body]. split.
  - repeat constructor; simpl; intuition discriminate.
  - repeat (constructor;
            [unfold in_grid; rewrite GRID_WIDTH_eq, GRID_HEIGHT_eq; simpl; lia|]).
    constructor.
Qed.

(** X8. While the game is running, the cells of the snake are pairwise
    distinct and within the grid at the top of every iteration, so the
    snake never has more cells than the grid. *)
Theorem running_snake_well_formed (g : Game) :
  reachable g ->
  game_over g = false ->
  NoDup (body (snake g)) /\
  Forall in_grid (body (snake g)) /\
  Z.of_nat (length (body (snake g))) <= GRID_WIDTH * GRID_HEIGHT.
Proof.
  intros Hg Hrun.
  assert (H : NoDup (body (snake g)) /\ Forall in_grid (body (snake g))).
  { revert Hrun. revert g Hg.
    set (P := fun g : Game =>
                game_over g = false ->
                NoDup (body (snake g)) /\ Forall in_grid (body (snake g))).
    apply (reachable_invariant P P); unfold P; clear P; auto.
    - intros fuel r g0 r' Hi _.
      destruct (Game_init_inv _ _ _ _ Hi) as [f [-> _]].
      cbn [snake]. unfold Snake_init. apply reset_well_formed.
    - intros fuel r g0 event g' r' HP H.
      destruct (handle_event_cases _ _ _ _ _ _ H)
        as [[_ [-> _]]|[[_ [-> _]]|[[G [_ [d [-> _]]]]|[_ [_ [k [_ [-> _]]]]]]]].
      + exact HP.
      + exact HP.
      + cbn [snake set_snake game_over].
        rewrite (proj1 (change_direction_body _ _)). exact HP.
      + intros _. cbn [snake]. apply reset_well_formed.
    - intros fuel r g0 g' r' HP H.
      destruct (update_cases _ _ _ _ _ H)
        as [[_ [-> _]]|[G [s1 [M [[_ [-> _]]|[[Hc [_ [-> _]]]|[Hc [_ [k [_ [-> _]]]]]]]]]]].
      + exact HP.
      + simpl. discriminate.
      + intros _. destruct (HP G) as [Hnd Hin].
        exact (move_keeps_well_formed _ _ Hnd Hin M Hc).
      + intros _. destruct (HP G) as [Hnd Hin].
        exact (move_keeps_well_formed _ _ Hnd Hin M Hc). }
  destruct H as [Hnd Hin]. split; [exact Hnd|]. split; [exact Hin|].
  assert (Hlen : (length (body (snake g)) <= length all_cells)%nat).
  { apply NoDup_incl_length; [exact Hnd|].
    intros c Hc. apply all_cells_complete.
    exact (proj1 (Forall_forall _ _) Hin c Hc). }
  change (length all_cells) with 1200%nat in Hlen.
  rewrite GRID_WIDTH_eq, GRID_HEIGHT_eq. unfold cell in *. lia.
Qed.

Lemma running_snake_well_formed_witness :
  NoDup (body (snake fed)) /\
  Forall in_grid (body (snake fed)) /\
  Z.of_nat (length (body (snake fed))) <= GRID_WIDTH * GRID_HEIGHT.
Proof.
  apply (running_snake_well_formed fed); [exact fed_reachable | reflexivity].
Defined.

(** ** The food and the snake *)

(** A collision is a head beyond the grid or on another cell of the body. *)
Lemma check_collision_true (s : Snake) (q : list cell) (h : cell) :
  body s = q ++ [h] ->
  check_collision s = Returns true ->
  ~ in_grid h \/ In h q.
Proof.
  intros Eb Hc. unfold check_collision, get_head in Hc.
  rewrite Eb, deque_last_app in Hc. destruct h as [hx hy]. simpl in Hc.
  destruct ((hx <? 0) || (hx >=? GRID_WIDTH) || (hy <? 0) || (hy >=? GRID_HEIGHT))
    eqn:W.
  - left. rewrite !orb_true_iff in W.
    rewrite Z.ltb_lt, Z.geb_le, Z.ltb_lt, Z.geb_le in W.
    unfold in_grid. simpl. lia.
  - right. rewrite removelast_last in Hc.
    destruct (py_in (hx, hy) q) eqn:P; [|discriminate].
    apply py_in_In. exact P.
Qed.

Lemma update_keeps_food_off
      (fuel : nat) (r : Rng) (g g' : Game) (r' : Rng) :
  in_grid (position (food g)) /\ ~ In (position (food g)) (body (snake g)) ->
  update fuel r g = Returns (tt, (g', r')) ->
  in_grid (position (food g')) /\ ~ In (position (food g')) (body (snake g')).
Proof.
  intros [Hg Hoff] H.
  destruct (update_cases _ _ _ _ _ H)
    as [[_ [-> _]]|[_ [s1 [M [[Hc [-> _]]|[[Hc [[h [Hh Hne]] [-> _]]]
                                          |[Hc [_ [k [[Hk _] [-> _]]]]]]]]]]].
  - split; assumption.
  - cbn [food snake]. split; [exact Hg|].
    destruct (move_result _ _ M) as [h [q [_ [Eb [Hq _]]]]].
    assert (Hsub : forall x, In x q -> In x (body (snake g))).
    { destruct Hq as [[_ ->]|[_ ->]]; [auto | intros x; apply In_tl]. }
    rewrite Eb. intros Hin. apply in_app_or in Hin.
    destruct Hin as [Hin|[Heq|[]]]; [exact (Hoff (Hsub _ Hin))|].
    destruct (check_collision_true _ _ _ Eb Hc) as [Hout|Hon].
    + apply Hout. rewrite Heq. exact Hg.
    + apply Hoff. rewrite <- Heq. exact (Hsub _ Hon).
  - cbn [food snake]. split; [exact Hg|].
    destruct (move_result _ _ M) as [h0 [q [_ [Eb [Hq _]]]]].
    assert (Hsub : forall x, In x q -> In x (body (snake g))).
    { destruct Hq as [[_ ->]|[_ ->]]; [auto | intros x; apply In_tl]. }
    unfold get_head in Hh. rewrite Eb, deque_last_app in Hh.
    injection Hh as Hh. rewrite Eb. intros Hin. apply in_app_or in Hin.
    destruct Hin as [Hin|[Heq|[]]]; [exact (Hoff (Hsub _ Hin))|].
    apply Hne. rewrite <- Hh. exact Heq.
  - cbn [food snake position grow set_grow_pending body].
    split; [apply sample_in_grid | exact (accepts_not_in _ _ Hk)].
Qed.

Lemma handle_event_keeps_food_off
      (fuel : nat) (r : Rng) (g : Game) (event : Event) (g' : Game) (r' : Rng) :
  in_grid (position (food g)) /\ ~ In (position (food g)) (body (snake g)) ->
  handle_event fuel r g event = Returns (g', r') ->
  in_grid (position (food g')) /\ ~ In (position (food g')) (body (snake g')).
Proof.
  intros HP H.
  destruct (handle_event_cases _ _ _ _ _ _ H)
    as [[_ [-> _]]|[[_ [-> _]]|[[_ [_ [d [-> _]]]]|[_ [_ [k [[Hk _] [-> _]]]]]]]].
  - exact HP.
  - exact HP.
  - cbn [food snake set_snake].
    rewrite (proj1 (change_direction_body _ _)). exact HP.
  - cbn [food snake position].
    split; [apply sample_in_grid | exact (accepts_not_in _ _ Hk)].
Qed.

(** X9. Once the food is on a cell of the grid that is not a cell of the
    snake, it stays so: every tick that returns and every handling of
    events that returns leave the food within the grid and off the snake,
    and [reset_game] puts it there. *)
Theorem food_stays_off_snake :
  (forall fuel r g g' r',
     in_grid (position (food g)) ->
     ~ In (position (food g)) (body (snake g)) ->
     update fuel r g = Returns (tt, (g', r')) ->
     in_grid (position (food g')) /\
     ~ In (position (food g')) (body (snake g'))) /\
  (forall fuel r g events g' r',
     in_grid (position (food g)) ->
     ~ In (position (food g)) (body (snake g)) ->
     handle_events fuel r g events = Returns (tt, (g', r')) ->
     in_grid (position (food g')) /\
     ~ In (position (food g')) (body (snake g'))) /\
  (forall fuel r g g' r',
     reset_game fuel r g = Returns (tt, (g', r')) ->
     in_grid (position (food g')) /\
     ~ In (position (food g')) (body (snake g'))).
Proof.
  split; [|split].
  - intros fuel r g g' r' Hg Hoff. apply update_keeps_food_off. split; assumption.
  - intros fuel r g events g' r' Hg Hoff.
    apply (handle_events_keeps
             (fun g => in_grid (position (food g)) /\
                       ~ In (position (food g)) (body (snake g)))).
    + intros fuel' r0 g0 event g1 r1. apply handle_event_keeps_food_off.
    + split; assumption.
  - intros fuel r g g' r' H.
    destruct (reset_game_inv r g fuel g' r' H) as [k [_ [[Hk _] [-> _]]]].
    cbn [food snake position].
    split; [apply sample_in_grid | exact (accepts_not_in _ _ Hk)].
Qed.

Lemma food_stays_off_snake_witness :
  in_grid (position (food fed)) /\
  ~ In (position (food fed)) (body (snake fed)).
Proof.
  apply (proj1 food_stays_off_snake 1%nat zero_rng scenario fed (after 1 zero_rng)).
  - unfold in_grid. rewrite GRID_WIDTH_eq, GRID_HEIGHT_eq. simpl. lia.
  - simpl. intuition discriminate.
  - reflexivity.
Defined.

Lemma draw_cell_cell_rng (c : cell) :
  in_grid c -> fst (draw_cell (cell_rng c)) = c.
Proof.
  destruct c as [x y]. unfold in_grid. rewrite GRID_WIDTH_eq, GRID_HEIGHT_eq.
  simpl. intros [Hx Hy]. unfold draw_cell, randint, cell_rng. simpl.
  change GRID_WIDTH with 40; change GRID_HEIGHT with 30. simpl.
  rewrite !Z.mod_small by lia. reflexivity.
Qed.

(** X10. [Game()] spawns its first food without telling it where the snake
    is: for every cell of the grid, the three cells of the fresh snake
    included, there is a random source on which [Game()] returns with the
    food on that cell. *)
Theorem Game_init_food_anywhere (c : cell) :
  in_grid c ->
  exists r', Game_init 1 (cell_rng c)
             = Returns (mkGame Snake_init (mkFood c) 0 0 true false, r').
Proof.
  intros Hc. eexists. unfold Game_init, Food_init.
  rewrite spawn_unfold. cbn [accepts]. rewrite (draw_cell_cell_rng c Hc).
  reflexivity.
Qed.

Lemma Game_init_food_anywhere_witness :
  In (20, 15) (body Snake_init) /\
  exists r', Game_init 1 (cell_rng (20, 15))
             = Returns (mkGame Snake_init (mkFood (20, 15)) 0 0 true false, r').
Proof.
  split; [simpl; auto|].
  apply (Game_init_food_anywhere (20, 15)).
  unfold in_grid. rewrite GRID_WIDTH_eq, GRID_HEIGHT_eq. simpl. lia.
Defined.

(** ** Events and the main loop *)

Lemma handle_event_running
      (fuel : nat) (r : Rng) (g : Game) (event : Event) :
  game_over g = false ->
  exists s',
    handle_event fuel r g event
    = Returns (mkGame s' (food g) (score g) (high_score g)
                      (running g && negb (quits event)) false, r) /\
    body s' = body (snake g) /\
    grow_pending s' = grow_pending (snake g).
Proof.
  destruct g as [s f sc hs rn go]. simpl. intros ->.
  destruct event as [|key|]; [|destruct key|]; simpl;
    rewrite ?andb_true_r, ?andb_false_r;
    eexists; (split; [reflexivity|]);
    try (split; reflexivity); apply change_direction_body.
Qed.

(** X11. While the game is running, handling the events of an iteration
    always returns, draws nothing from the random source, and can change
    only the direction of the snake and the [running] flag, which it
    clears exactly when one of the events is QUIT or the ESCAPE key: no
    event restarts or ends a running game, moves the snake or touches the
    score. *)
Theorem handle_events_running
        (fuel : nat) (events : list Event) (r : Rng) (g : Game) :
  game_over g = false ->
  exists s',
    handle_events fuel r g events
    = Returns (tt, (mkGame s' (food g) (score g) (high_score g)
                           (running g && negb (existsb quits events)) false, r)) /\
    body s' = body (snake g) /\
    grow_pending s' = grow_pending (snake g).
Proof.
  revert g. induction events as [|event events IH]; intros g G.
  - exists (snake g). destruct g as [s f sc hs rn go]. simpl in *. subst go.
    rewrite andb_true_r. repeat split.
  - destruct (handle_event_running fuel r g event G) as [s1 [E1 [Hb1 Hg1]]].
    cbn [handle_events existsb]. rewrite E1. cbn [bind].
    destruct (IH (mkGame s1 (food g) (score g) (high_score g)
                         (running g && negb (quits event)) false) eq_refl)
      as [s' [E' [Hb' Hg']]].
    exists s'. cbn [snake food score high_score running] in *.
    rewrite E'. rewrite negb_orb, andb_assoc.
    split; [reflexivity|]. split; congruence.
Qed.

Lemma handle_events_running_witness :
  exists s',
    handle_events 0 zero_rng scenario
      [KEYDOWN K_SPACE; KEYDOWN K_w; KEYDOWN K_ESCAPE; KEYDOWN K_a]
    = Returns (tt, (mkGame s' (mkFood (21, 15)) 0 0 false false, zero_rng)) /\
    body s' = [(18, 15); (19, 15); (20, 15)] /\
    grow_pending s' = false.
Proof.
  apply (handle_events_running 0 [KEYDOWN K_SPACE; KEYDOWN K_w; KEYDOWN K_ESCAPE;
                                  KEYDOWN K_a] zero_rng scenario).
  reflexivity.
Defined.

Lemma handle_event_game_over
      (fuel : nat) (r : Rng) (g : Game) (event : Event) :
  game_over g = true ->
  restarts event = false ->
  handle_event fuel r g event
  = Returns (set_running g (running g && negb (quits event)), r).
Proof.
  destruct g as [s f sc hs rn go]. simpl. intros -> Hr.
  destruct event as [|key|]; [|destruct key|]; simpl in *;
    try discriminate; unfold set_running; simpl;
    rewrite ?andb_true_r, ?andb_false_r; reflexivity.
Qed.

(** X12. While the game is over, events other than the SPACE and RETURN
    keys leave the game as it is, turns included: handling them returns
    the same snake, food and scores, draws nothing from the random source,
    and clears [running] exactly when one of them is QUIT or the ESCAPE
    key. *)
Theorem handle_events_game_over
        (fuel : nat) (events : list Event) (r : Rng) (g : Game) :
  game_over g = true ->
  existsb restarts events = false ->
  handle_events fuel r g events
  = Returns (tt, (set_running g (running g && negb (existsb quits events)), r)).
Proof.
  revert g. induction events as [|event events IH]; intros g G Hr.
  - destruct g as [s f sc hs rn go]. unfold set_running. simpl.
    rewrite andb_true_r. reflexivity.
  - cbn [existsb] in Hr. apply orb_false_iff in Hr. destruct Hr as [Hr1 Hr2].
    cbn [handle_events existsb].
    rewrite (handle_event_game_over fuel r g event G Hr1). cbn [bind].
    rewrite (IH (set_running g (running g && negb (quits event))) G Hr2).
    unfold set_running. simpl.
    rewrite negb_orb, andb_assoc. reflexivity.
Qed.

Lemma handle_events_game_over_witness :
  handle_events 0 zero_rng ended [KEYDOWN K_UP; KEYDOWN K_d; OTHER]
  = Returns (tt, (set_running ended true, zero_rng)).
Proof.
  apply (handle_events_game_over 0 [KEYDOWN K_UP; KEYDOWN K_d; OTHER]
           zero_rng ended); reflexivity.
Defined.








(** ** Drawing *)













Lemma grid_columns :
  py_range 0 WINDOW_WIDTH GRID_SIZE
  = map (fun k => Z.of_nat k * GRID_SIZE) (seq 0 (Z.to_nat GRID_WIDTH)).
Proof. reflexivity. Qed.

Lemma grid_rows :
  py_range 0 WINDOW_HEIGHT GRID_SIZE
  = map (fun k => Z.of_nat k * GRID_SIZE) (seq 0 (Z.to_nat GRID_HEIGHT)).
Proof. reflexivity. Qed.

Lemma In_multiples (n v : Z) :
  In v (map (fun k => Z.of_nat k * GRID_SIZE) (seq 0 (Z.to_nat n)))
  <-> exists x, 0 <= x < n /\ v = x * GRID_SIZE.
Proof.
  rewrite in_map_iff. split.
  - intros [k [<- Hk]]. apply in_seq in Hk. exists (Z.of_nat k). split; lia.
  - intros [x [Hx ->]]. exists (Z.to_nat x). split.
    + rewrite Z2Nat.id by lia. reflexivity.
    + apply in_seq. lia.
Qed.

(** X17. [Game.draw_grid] draws a gray line down the window along the
    left edge of each of the 40 columns of the grid and a gray line across
    it along the top edge of each of its 30 rows, and nothing else: 70
    lines in all, the vertical ones first. *)
Theorem draw_grid_lines :
  (forall col p q,
     In (draw_line col p q) draw_grid <->
     col = GRAY /\
     ((exists x, 0 <= x < GRID_WIDTH /\
                 p = (x * GRID_SIZE, 0) /\ q = (x * GRID_SIZE, WINDOW_HEIGHT)) \/
      (exists y, 0 <= y < GRID_HEIGHT /\
                 p = (0, y * GRID_SIZE) /\ q = (WINDOW_WIDTH, y * GRID_SIZE)))) /\
  (forall col rect w, ~ In (draw_rect col rect w) draw_grid) /\
  length draw_grid = 70%nat /\
  (forall c, in_grid c ->
     In (draw_line GRAY (rect_left (cell_rect c), 0)
                   (rect_left (cell_rect c), WINDOW_HEIGHT)) draw_grid /\
     In (draw_line GRAY (0, rect_top (cell_rect c))
                   (WINDOW_WIDTH, rect_top (cell_rect c))) draw_grid).
Proof.
  assert (Hv : forall x, 0 <= x < GRID_WIDTH ->
                 In (draw_line GRAY (x * GRID_SIZE, 0) (x * GRID_SIZE, WINDOW_HEIGHT))
                    draw_grid).
  { intros x Hx. unfold draw_grid. apply in_or_app. left.
    rewrite grid_columns. apply in_map_iff. exists (x * GRID_SIZE).
    split; [reflexivity|]. apply In_multiples. exists x. auto. }
  assert (Hh : forall y, 0 <= y < GRID_HEIGHT ->
                 In (draw_line GRAY (0, y * GRID_SIZE) (WINDOW_WIDTH, y * GRID_SIZE))
                    draw_grid).
  { intros y Hy. unfold draw_grid. apply in_or_app. right.
    rewrite grid_rows. apply in_map_iff. exists (y * GRID_SIZE).
    split; [reflexivity|]. apply In_multiples. exists y. auto. }
  split; [|split; [|split]].
  - intros col p q. split.
    + unfold draw_grid. intros Hin. apply in_app_or in Hin.
      destruct Hin as [Hin|Hin]; apply in_map_iff in Hin;
        destruct Hin as [v [Heq Hin]]; inversion Heq; subst;
        (split; [reflexivity|]).
      * left. rewrite grid_columns in Hin. apply In_multiples in Hin.
        destruct Hin as [x [Hx ->]]. exists x. auto.
      * right. rewrite grid_rows in Hin. apply In_multiples in Hin.
        destruct Hin as [y [Hy ->]]. exists y. auto.
    + intros [-> [[x [Hx [-> ->]]]|[y [Hy [-> ->]]]]]; [apply Hv | apply Hh];
        assumption.
  - intros col rect w Hin. unfold draw_grid in Hin. apply in_app_or in Hin.
    destruct Hin as [Hin|Hin]; apply in_map_iff in Hin;
      destruct Hin as [v [Heq _]]; discriminate.
  - reflexivity.
  - intros [x y] [Hx Hy]. simpl in Hx, Hy. split; [apply Hv | apply Hh]; assumption.
Qed.

Lemma draw_grid_lines_witness :
  In (draw_line GRAY (rect_left (cell_rect (20, 15)), 0)
                (rect_left (cell_rect (20, 15)), WINDOW_HEIGHT)) draw_grid /\
  In (draw_line GRAY (0, rect_top (cell_rect (20, 15)))
                (WINDOW_WIDTH, rect_top (cell_rect (20, 15)))) draw_grid.
Proof.
  apply (proj2 (proj2 (proj2 draw_grid_lines)) (20, 15)).
  unfold in_grid. rewrite GRID_WIDTH_eq, GRID_HEIGHT_eq. simpl. lia.
Defined.
